(** * Curve25519 signatures (ecc/SignCurve25519.go)

    A shallow embedding of [sign] and [verify] from
    [ecc/SignCurve25519.go], together with executable models of the two
    external packages the file calls: [crypto/sha512] and
    [filippo.io/edwards25519].  Byte buffers are lists of [Byte.byte];
    field elements and scalars are integers with the reduction written
    out. *)

From Stdlib Require Import ZArith Lia Strings.Byte String.
From stdpp Require Import base list gmap.

Local Open Scope Z_scope.

(** ** Byte buffers *)

Module Bytes.

Definition to_Z (b : byte) : Z := Z.of_N (Byte.to_N b).

(** Conversion of an integer to a [uint8]: the low eight bits. *)
Definition of_Z (z : Z) : byte :=
  match Byte.of_N (Z.to_N (z mod 256)) with
  | Some b => b
  | None => x00
  end.

(** [b & m] and [b | m] on [uint8]. *)
Definition band (b m : byte) : byte := of_Z (Z.land (to_Z b) (to_Z m)).
Definition bor (b m : byte) : byte := of_Z (Z.lor (to_Z b) (to_Z m)).

(** Bit [i] of a byte. *)
Definition bit (i : Z) (b : byte) : bool := Z.testbit (to_Z b) i.

(** Little-endian value of a buffer. *)
Fixpoint le_decode (bs : list byte) : Z :=
  match bs with
  | [] => 0
  | b :: bs' => to_Z b + 256 * le_decode bs'
  end.

(** Little-endian encoding of [z] on [n] bytes (the low [8n] bits). *)
Fixpoint le_encode (n : nat) (z : Z) : list byte :=
  match n with
  | O => []
  | S n' => of_Z z :: le_encode n' (z / 256)
  end.

(** Big-endian value and encoding, as used by SHA-512. *)
Definition be_decode (bs : list byte) : Z := le_decode (reverse bs).
Definition be_encode (n : nat) (z : Z) : list byte := reverse (le_encode n z).

(** [a[i] op= m]: update in place of the byte at index [i]. *)
Definition update (f : byte -> byte) (i : nat) (a : list byte) : list byte :=
  alter f i a.

(** Go's [copy(dst[off:], src)]: overwrites
    [min (length dst - off) (length src)] bytes of [dst] from [off]. *)
Definition copy_at (off : nat) (dst src : list byte) : list byte :=
  take off dst ++ take (length dst - off) src
    ++ drop (off + length src) dst.

Definition zeros (n : nat) : list byte := replicate n x00.

(** [a[i]] for an index within bounds. *)
Definition get (a : list byte) (i : nat) : byte := default x00 (a !! i).

End Bytes.

(** ** crypto/sha512 *)

(** Modelled from the spec: the hash function producing a 64-byte digest
    (spec section 6).  It is Go's [crypto/sha512], an external package
    that is not among the repository sources: SHA-512 of FIPS 180-4,
    written out here so that [sign] and [verify] can be evaluated. *)
Module sha512.

Definition mask64 : Z := 0xffffffffffffffff.
Definition w64 (x : Z) : Z := Z.land x mask64.
Definition add64 (x y : Z) : Z := w64 (x + y).

Definition ROTR (n x : Z) : Z :=
  Z.lor (Z.shiftr x n) (w64 (Z.shiftl x (64 - n))).
Definition SHR (n x : Z) : Z := Z.shiftr x n.

Definition Ch (x y z : Z) : Z :=
  Z.lxor (Z.land x y) (Z.land (Z.lxor x mask64) z).
Definition Maj (x y z : Z) : Z :=
  Z.lxor (Z.lxor (Z.land x y) (Z.land x z)) (Z.land y z).
Definition Sigma0 (x : Z) : Z :=
  Z.lxor (Z.lxor (ROTR 28 x) (ROTR 34 x)) (ROTR 39 x).
Definition Sigma1 (x : Z) : Z :=
  Z.lxor (Z.lxor (ROTR 14 x) (ROTR 18 x)) (ROTR 41 x).
Definition sigma0 (x : Z) : Z :=
  Z.lxor (Z.lxor (ROTR 1 x) (ROTR 8 x)) (SHR 7 x).
Definition sigma1 (x : Z) : Z :=
  Z.lxor (Z.lxor (ROTR 19 x) (ROTR 61 x)) (SHR 6 x).

Definition K : list Z :=
  [ 0x428a2f98d728ae22; 0x7137449123ef65cd; 0xb5c0fbcfec4d3b2f; 0xe9b5dba58189dbbc;
    0x3956c25bf348b538; 0x59f111f1b605d019; 0x923f82a4af194f9b; 0xab1c5ed5da6d8118;
    0xd807aa98a3030242; 0x12835b0145706fbe; 0x243185be4ee4b28c; 0x550c7dc3d5ffb4e2;
    0x72be5d74f27b896f; 0x80deb1fe3b1696b1; 0x9bdc06a725c71235; 0xc19bf174cf692694;
    0xe49b69c19ef14ad2; 0xefbe4786384f25e3; 0x0fc19dc68b8cd5b5; 0x240ca1cc77ac9c65;
    0x2de92c6f592b0275; 0x4a7484aa6ea6e483; 0x5cb0a9dcbd41fbd4; 0x76f988da831153b5;
    0x983e5152ee66dfab; 0xa831c66d2db43210; 0xb00327c898fb213f; 0xbf597fc7beef0ee4;
    0xc6e00bf33da88fc2; 0xd5a79147930aa725; 0x06ca6351e003826f; 0x142929670a0e6e70;
    0x27b70a8546d22ffc; 0x2e1b21385c26c926; 0x4d2c6dfc5ac42aed; 0x53380d139d95b3df;
    0x650a73548baf63de; 0x766a0abb3c77b2a8; 0x81c2c92e47edaee6; 0x92722c851482353b;
    0xa2bfe8a14cf10364; 0xa81a664bbc423001; 0xc24b8b70d0f89791; 0xc76c51a30654be30;
    0xd192e819d6ef5218; 0xd69906245565a910; 0xf40e35855771202a; 0x106aa07032bbd1b8;
    0x19a4c116b8d2d0c8; 0x1e376c085141ab53; 0x2748774cdf8eeb99; 0x34b0bcb5e19b48a8;
    0x391c0cb3c5c95a63; 0x4ed8aa4ae3418acb; 0x5b9cca4f7763e373; 0x682e6ff3d6b2b8a3;
    0x748f82ee5defb2fc; 0x78a5636f43172f60; 0x84c87814a1f0ab72; 0x8cc702081a6439ec;
    0x90befffa23631e28; 0xa4506cebde82bde9; 0xbef9a3f7b2c67915; 0xc67178f2e372532b;
    0xca273eceea26619c; 0xd186b8c721c0c207; 0xeada7dd6cde0eb1e; 0xf57d4f7fee6ed178;
    0x06f067aa72176fba; 0x0a637dc5a2c898a6; 0x113f9804bef90dae; 0x1b710b35131c471b;
    0x28db77f523047d84; 0x32caab7b40c72493; 0x3c9ebe0a15c9bebc; 0x431d67c49c100d4c;
    0x4cc5d4becb3e42b6; 0x597f299cfc657e2a; 0x5fcb6fab3ad6faec; 0x6c44198c4a475817 ].

Definition H0 : list Z :=
  [ 0x6a09e667f3bcc908; 0xbb67ae8584caa73b; 0x3c6ef372fe94f82b; 0xa54ff53a5f1d36f1;
    0x510e527fade682d1; 0x9b05688c2b3e6c1f; 0x1f83d9abfb41bd6b; 0x5be0cd19137e2179 ].

(** Padding: a [0x80] byte, zero bytes up to 112 modulo 128, and the
    bit length on 16 big-endian bytes. *)
Definition pad (msg : list byte) : list byte :=
  let l := Z.of_nat (length msg) in
  let k := Z.to_nat ((128 - (l + 17) mod 128) mod 128) in
  msg ++ [x80] ++ Bytes.zeros k ++ Bytes.be_encode 16 (8 * l).

(** The [n] big-endian 64-bit words at the head of a buffer. *)
Fixpoint words (n : nat) (bs : list byte) : list Z :=
  match n with
  | O => []
  | S n' => Bytes.be_decode (take 8 bs) :: words n' (drop 8 bs)
  end.

(** Message schedule.  [rev_w] holds the words computed so far, most
    recent first; [n] more words are added. *)
Fixpoint expand (n : nat) (rev_w : list Z) : list Z :=
  match n with
  | O => rev_w
  | S n' =>
      let w := add64 (add64 (add64 (sigma1 (nth 1 rev_w 0)) (nth 6 rev_w 0))
                        (sigma0 (nth 14 rev_w 0))) (nth 15 rev_w 0) in
      expand n' (w :: rev_w)
  end.

Definition schedule (block : list byte) : list Z :=
  reverse (expand 64 (reverse (words 16 block))).

Record vars := Vars { va : Z; vb : Z; vc : Z; vd : Z;
                      ve : Z; vf : Z; vg : Z; vh : Z }.

Definition round (v : vars) (kw : Z * Z) : vars :=
  let '(Vars a b c d e f g h) := v in
  let T1 := add64 (add64 (add64 (add64 h (Sigma1 e)) (Ch e f g)) (fst kw)) (snd kw) in
  let T2 := add64 (Sigma0 a) (Maj a b c) in
  Vars (add64 T1 T2) a b c (add64 d T1) e f g.

Definition vars_of (hs : list Z) : vars :=
  Vars (nth 0 hs 0) (nth 1 hs 0) (nth 2 hs 0) (nth 3 hs 0)
       (nth 4 hs 0) (nth 5 hs 0) (nth 6 hs 0) (nth 7 hs 0).

Definition list_of (v : vars) : list Z :=
  let '(Vars a b c d e f g h) := v in [a; b; c; d; e; f; g; h].

Definition compress (hs : list Z) (block : list byte) : list Z :=
  let v := fold_left round (zip K (schedule block)) (vars_of hs) in
  zip_with add64 hs (list_of v).

Fixpoint blocks (n : nat) (hs : list Z) (bs : list byte) : list Z :=
  match n with
  | O => hs
  | S n' => blocks n' (compress hs (take 128 bs)) (drop 128 bs)
  end.

(** [sha512.Sum512]. *)
Definition Sum512 (msg : list byte) : list byte :=
  let m := pad msg in
  mjoin (Bytes.be_encode 8 <$> blocks (length m / 128) H0 m).

(** The [hash.Hash] object returned by [sha512.New()]: what matters of
    its state is the sequence of bytes written since the last reset. *)
Record digest := Digest { written : list byte }.

Definition New : digest := Digest [].
Definition Write (d : digest) (p : list byte) : digest :=
  Digest (written d ++ p).
Definition Reset (d : digest) : digest := Digest [].
(** [d.Sum(b)] appends the current hash to [b] and leaves [d] as it is. *)
Definition Sum (d : digest) (b : list byte) : list byte :=
  b ++ Sum512 (written d).

End sha512.

(** ** filippo.io/edwards25519 *)

(** Modelled from the spec: the curve, point and scalar arithmetic library
    (spec section 6: scalar clamping, scalar reduction modulo the group
    order, single and double-base scalar multiplication, point encoding,
    decoding and equality).  It is [filippo.io/edwards25519], an external
    package that is not among the repository sources.  Each function
    below follows the documented behaviour of the method of the same
    name; field elements are kept reduced, points are in extended
    coordinates. *)
Module edwards25519.

(** *** The field GF(2^255 - 19) *)
Module field.

Definition p : Z := Eval vm_compute in 2 ^ 255 - 19.

(** One folding step of the reduction: [2^255 = 19] modulo [p]. *)
Definition fold255 (x : Z) : Z :=
  Z.land x (Z.ones 255) + 19 * Z.shiftr x 255.

(** Canonical representative of [x], for [0 <= x < 2^510]. *)
Definition reduce (x : Z) : Z :=
  let y := fold255 (fold255 x) in
  if y <? p then y else y - p.

Definition Add (a b : Z) : Z := reduce (a + b).
Definition Subtract (a b : Z) : Z := reduce (a + p - b).
Definition Negate (a : Z) : Z := reduce (p - a).
Definition Multiply (a b : Z) : Z := reduce (a * b).
Definition Square (a : Z) : Z := reduce (a * a).

Fixpoint pow (x : Z) (e : positive) : Z :=
  match e with
  | xH => x
  | xO e' => Square (pow x e')
  | xI e' => Multiply x (Square (pow x e'))
  end.

(** [Invert] sets [v = 1/z mod p]; [Invert 0 = 0]. *)
Definition Invert (z : Z) : Z := pow z (Z.to_pos (p - 2)).

(** [Pow22523] sets [v = x^((p-5)/8)]. *)
Definition Pow22523 (x : Z) : Z := pow x (Z.to_pos ((p - 5) / 8)).

(** [IsNegative] returns 1 if [v] is negative (odd), and 0 otherwise. *)
Definition IsNegative (v : Z) : Z := if Z.odd v then 1 else 0.

Definition Absolute (v : Z) : Z :=
  if Z.odd v then Negate v else v.

(** [SetBytes]: a 32-byte little-endian encoding; the most significant
    bit is ignored and non-canonical values are accepted. *)
Definition SetBytes (x : list byte) : option Z :=
  if decide (length x = 32%nat)
  then Some (reduce (Z.land (Bytes.le_decode x) (Z.ones 255)))
  else None.

Definition Bytes (v : Z) : list byte := Bytes.le_encode 32 v.

Definition sqrtM1 : Z :=
  19681161376707505956807079304988542015446066515923890162744021073123829784752.

(** [SqrtRatio u v]: the non-negative square root of [u/v] and [true]
    when [u/v] is a square, and [false] otherwise. *)
Definition SqrtRatio (u v : Z) : Z * bool :=
  let v2 := Square v in
  let uv3 := Multiply u (Multiply v2 v) in
  let uv7 := Multiply uv3 (Square v2) in
  let rr := Multiply uv3 (Pow22523 uv7) in
  let check := Multiply v (Square rr) in
  let uNeg := Negate u in
  let correctSignSqrt := check =? u in
  let flippedSignSqrt := check =? uNeg in
  let flippedSignSqrtI := check =? Multiply uNeg sqrtM1 in
  let rPrime := Multiply rr sqrtM1 in
  let rr := if flippedSignSqrt || flippedSignSqrtI then rPrime else rr in
  (Absolute rr, correctSignSqrt || flippedSignSqrt).

End field.

(** *** Scalars modulo the group order *)
Module Scalar.

(** The order of the prime-order subgroup,
    [2^252 + 27742317777372353535851937790883648493]. *)
Definition L : Z :=
  Eval vm_compute in 2 ^ 252 + 27742317777372353535851937790883648493.

(** A [Scalar] is an integer modulo [L], kept reduced. *)
Definition t : Type := Z.

(** [SetUniformBytes] sets [s = x mod l], where [x] is a 64-byte
    little-endian integer; an error for any other length. *)
Definition SetUniformBytes (x : list byte) : option t :=
  if decide (length x = 64%nat)
  then Some (Bytes.le_decode x mod L)
  else None.

(** [SetCanonicalBytes] sets [s = x], where [x] is a 32-byte
    little-endian encoding of [s]; an error if [x] is not of the right
    length or not below [L]. *)
Definition SetCanonicalBytes (x : list byte) : option t :=
  if decide (length x = 32%nat)
  then if Bytes.le_decode x <? L then Some (Bytes.le_decode x) else None
  else None.

(** [SetBytesWithClamping] applies the clamping of RFC 8032, section
    5.1.5, to a copy of the 32 input bytes and reduces the result
    modulo [L]. *)
Definition SetBytesWithClamping (x : list byte) : option t :=
  if decide (length x = 32%nat)
  then
    let wideBytes := Bytes.copy_at 0 (Bytes.zeros 64) x in
    let wideBytes := Bytes.update (fun b => Bytes.band b (Bytes.of_Z 248)) 0 wideBytes in
    let wideBytes := Bytes.update (fun b => Bytes.band b (Bytes.of_Z 63)) 31 wideBytes in
    let wideBytes := Bytes.update (fun b => Bytes.bor b (Bytes.of_Z 64)) 31 wideBytes in
    SetUniformBytes wideBytes
  else None.

(** [MultiplyAdd] sets [s = x * y + z mod l]. *)
Definition MultiplyAdd (x y z : t) : t := (x * y + z) mod L.

(** [Bytes] returns the canonical 32-byte little-endian encoding. *)
Definition Bytes (s : t) : list byte := Bytes.le_encode 32 s.

End Scalar.

(** *** Points, in extended coordinates [(X : Y : Z : T)] *)
Module Point.

Record t : Type := Pt { X : Z; Y : Z; Zc : Z; T : Z }.

Definition d : Z :=
  37095705934669439343138083508754565189542113879843219016388785533085940283555.
Definition d2 : Z := Eval vm_compute in field.Add d d.

Definition identity : t := Pt 0 1 1 0.

(** The canonical generator. *)
Definition generator : t :=
  let x := 15112221349535400772501151409588531511454012693041857206046113283949847762202 in
  let y := 46316835694926478169428394003475163141307993866256225615783033603165251855960 in
  Pt x y 1 (field.Multiply x y).

(** [Add] sets [v = p + q]. *)
Definition Add (p q : t) : t :=
  let A := field.Multiply (field.Subtract (Y p) (X p)) (field.Subtract (Y q) (X q)) in
  let B := field.Multiply (field.Add (Y p) (X p)) (field.Add (Y q) (X q)) in
  let C := field.Multiply (field.Multiply (T p) d2) (T q) in
  let D := field.Multiply (field.Add (Zc p) (Zc p)) (Zc q) in
  let E := field.Subtract B A in
  let F := field.Subtract D C in
  let G := field.Add D C in
  let H := field.Add B A in
  Pt (field.Multiply E F) (field.Multiply G H)
     (field.Multiply F G) (field.Multiply E H).

(** [Negate] sets [v = -p]. *)
Definition Negate (p : t) : t :=
  Pt (field.Negate (X p)) (Y p) (Zc p) (field.Negate (T p)).

Fixpoint mult_pos (k : positive) (q : t) : t :=
  match k with
  | xH => q
  | xO k' => let r := mult_pos k' q in Add r r
  | xI k' => let r := mult_pos k' q in Add (Add r r) q
  end.

(** [ScalarMult] sets [v = x * q]. *)
Definition ScalarMult (x : Scalar.t) (q : t) : t :=
  match x with
  | Zpos k => mult_pos k q
  | _ => identity
  end.

(** [ScalarBaseMult] sets [v = x * B], where [B] is the canonical
    generator. *)
Definition ScalarBaseMult (x : Scalar.t) : t := ScalarMult x generator.

(** [VarTimeDoubleScalarBaseMult] sets [v = a * A + b * B], where [B]
    is the canonical generator. *)
Definition VarTimeDoubleScalarBaseMult (a : Scalar.t) (A : t) (b : Scalar.t) : t :=
  Add (ScalarMult a A) (ScalarBaseMult b).

(** [Equal] returns 1 if [v] is equivalent to [u], and 0 otherwise. *)
Definition Equal (v u : t) : Z :=
  if (field.Multiply (X v) (Zc u) =? field.Multiply (X u) (Zc v))
     && (field.Multiply (Y v) (Zc u) =? field.Multiply (Y u) (Zc v))
  then 1 else 0.

(** [Bytes] returns the canonical 32-byte encoding of [v], according
    to RFC 8032, section 5.1.2. *)
Definition Bytes (v : t) : list byte :=
  let zInv := field.Invert (Zc v) in
  let x := field.Multiply (X v) zInv in
  let y := field.Multiply (Y v) zInv in
  let out := field.Bytes y in
  Bytes.update
    (fun b => Bytes.bor b (Bytes.of_Z (Z.shiftl (field.IsNegative x) 7)))
    31 out.

(** [SetBytes] sets [v = x], where [x] is a 32-byte encoding of [v];
    an error if [x] does not represent a point of the curve.  All
    non-canonical encodings of valid points are accepted. *)
Definition SetBytes (x : list byte) : option t :=
  match field.SetBytes x with
  | None => None
  | Some y =>
      let y2 := field.Square y in
      let u := field.Subtract y2 1 in
      let vv := field.Add (field.Multiply y2 d) 1 in
      let '(xx, wasSquare) := field.SqrtRatio u vv in
      if wasSquare then
        let xxNeg := field.Negate xx in
        let xx :=
          if Z.shiftr (Bytes.to_Z (Bytes.get x 31)) 7 =? 1 then xxNeg else xx in
        Some (Pt xx y 1 (field.Multiply xx y))
      else None
  end.

End Point.

End edwards25519.

(** ** Memory and control effects

    [sign] receives its key through a pointer and its message through a
    slice, and returns a pointer to a freshly allocated array; [verify]
    receives the signature through a pointer.  Those buffers live in a
    heap of byte arrays.  A computation either returns a value and a new
    state or panics.  Next to the heap the state carries a ghost record,
    [hashed], of the inputs on which a SHA-512 digest was computed; it
    has no influence on any result. *)

Definition loc : Type := positive.

Inductive result (A : Type) : Type :=
  | Ok (a : A)
  | Panic (msg : string).
Arguments Ok {A} a.
Arguments Panic {A} msg.

Record state : Type := State {
  heap : gmap loc (list byte);
  hashed : list (list byte)
}.

Definition M (A : Type) : Type := state -> result (A * state).

Definition ret {A} (a : A) : M A := fun σ => Ok (a, σ).

Definition bind {A B} (m : M A) (k : A -> M B) : M B :=
  fun σ =>
    match m σ with
    | Ok (a, σ') => k a σ'
    | Panic msg => Panic msg
    end.

Notation "x <- m ;; k" := (bind m (fun x => k))
  (at level 100, m at next level, right associativity).
Notation "m ;;; k" := (bind m (fun _ => k))
  (at level 100, right associativity).

Definition panic {A} (msg : string) : M A := fun _ => Panic msg.

(** Reading through a pointer or a slice. *)
Definition load (l : loc) : M (list byte) :=
  fun σ =>
    match heap σ !! l with
    | Some a => Ok (a, σ)
    | None => Panic "invalid memory address or nil pointer dereference"
    end.

(** Writing through a pointer. *)
Definition modify (l : loc) (f : list byte -> list byte) : M unit :=
  fun σ =>
    match heap σ !! l with
    | Some a => Ok (tt, State (<[l := f a]> (heap σ)) (hashed σ))
    | None => Panic "invalid memory address or nil pointer dereference"
    end.

(** [new([n]byte)]: a fresh zeroed array. *)
Definition new (n : nat) : M loc :=
  fun σ =>
    let l := fresh (dom (heap σ)) in
    Ok (l, State (<[l := Bytes.zeros n]> (heap σ)) (hashed σ)).

(** [a[i]] on a slice: a run-time panic when [i] is out of range. *)
Definition index (a : list byte) (i : nat) : M byte :=
  match a !! i with
  | Some b => ret b
  | None => panic "index out of range"
  end.

(** A result whose error was dropped with [_]: the value is a nil pointer
    when the call failed, and its first use panics. *)
Definition must {A} (o : option A) : M A :=
  match o with
  | Some a => ret a
  | None => panic "invalid memory address or nil pointer dereference"
  end.

(** [hash.Sum(arr[:0])] for an array [arr]: the digest is appended to the
    empty slice that shares the storage of [arr], so it lands in [arr]
    when it fits there, and in a new array, leaving [arr] as it was,
    when it does not.  Returns the contents of [arr] after the call. *)
Definition sum_into (hash : sha512.digest) (arr : list byte) : M (list byte) :=
  fun σ =>
    let out := sha512.Sum hash (take 0 arr) in
    let arr' :=
      if decide (length out <= length arr)%nat
      then out ++ drop (length out) arr
      else arr in
    Ok (arr', State (heap σ) (hashed σ ++ [sha512.written hash])).

(** ** ecc/SignCurve25519.go *)

Import edwards25519.

Definition diversifier : list byte :=
  [ xfe; xff; xff; xff; xff; xff; xff; xff;
    xff; xff; xff; xff; xff; xff; xff; xff;
    xff; xff; xff; xff; xff; xff; xff; xff;
    xff; xff; xff; xff; xff; xff; xff; xff ].

(** [sign] signs the message with [privateKey] and returns a signature. *)
Definition sign (privateKey message : loc) (random : list byte) : M loc :=
  (* Calculate Ed25519 public key from Curve25519 private key *)
  key <- load privateKey ;;
  match Scalar.SetBytesWithClamping key with
  | None => panic "invalid private key"
  | Some privScalar =>
    let publicKey := Point.Bytes (Point.ScalarBaseMult privScalar) in
    (* Calculate r *)
    let r := Bytes.zeros 64 in
    let hash := sha512.New in
    let hash := sha512.Write hash diversifier in
    key <- load privateKey ;;
    let hash := sha512.Write hash key in
    msg <- load message ;;
    let hash := sha512.Write hash msg in
    let hash := sha512.Write hash random in
    r <- sum_into hash r ;;
    (* Reduce r mod L (Ed25519 curve order) *)
    rScalar <- must (Scalar.SetUniformBytes r) ;;
    (* Calculate R = r * B (base point) *)
    let R := Point.ScalarBaseMult rScalar in
    let encodedR := Point.Bytes R in
    (* Calculate h = SHA512(R || A_ed || msg) *)
    let hash := sha512.Reset hash in
    let hash := sha512.Write hash encodedR in
    let hash := sha512.Write hash publicKey in
    msg <- load message ;;
    let hash := sha512.Write hash msg in
    let hramDigest := Bytes.zeros 64 in
    hramDigest <- sum_into hash hramDigest ;;
    hramScalar <- must (Scalar.SetUniformBytes hramDigest) ;;
    (* Calculate S = (r + h * privKey) mod L *)
    let s := Scalar.MultiplyAdd hramScalar privScalar rScalar in
    (* Combine R and S into the signature *)
    signature <- new 64 ;;
    modify signature (fun a => Bytes.copy_at 0 a encodedR) ;;;
    modify signature (fun a => Bytes.copy_at 32 a (Scalar.Bytes s)) ;;;
    (* Restore the sign bit in the signature *)
    top <- index publicKey 31 ;;
    modify signature
      (Bytes.update (fun b => Bytes.bor b (Bytes.band top x80)) 63) ;;;
    ret signature
  end.

(** [verify] checks whether the message has a valid signature.
    [publicKey] is passed by value: the function works on its own copy. *)
Definition verify (publicKey : list byte) (message signature : loc) : M bool :=
  let publicKey := Bytes.update (fun b => Bytes.band b x7f) 31 publicKey in
  (* Load the public key into a Point object *)
  match Point.SetBytes publicKey with
  | None => ret false
  | Some A =>
    (* Split the signature into R and S *)
    sig <- load signature ;;
    match Point.SetBytes (take 32 sig) with
    | None => ret false
    | Some R =>
      (* Create a scalar from the last 32 bytes of the signature *)
      sig <- load signature ;;
      match Scalar.SetCanonicalBytes (drop 32 sig) with
      | None => ret false
      | Some s =>
        (* Calculate h = SHA512(R || A_ed || msg) *)
        let hash := sha512.New in
        sig <- load signature ;;
        let hash := sha512.Write hash (take 32 sig) in
        let hash := sha512.Write hash publicKey in
        msg <- load message ;;
        let hash := sha512.Write hash msg in
        let hramDigest := Bytes.zeros 64 in
        hramDigest <- sum_into hash hramDigest ;;
        hramScalar <- must (Scalar.SetUniformBytes hramDigest) ;;
        (* Check if S * B == R + h * A *)
        let check := Point.VarTimeDoubleScalarBaseMult hramScalar A s in
        ret (bool_decide (Point.Equal check R = 1))
      end
    end
  end.

(** ** Derived notions and test data *)

(** The digest read as a 64-byte little-endian integer and reduced
    modulo the group order: what [SetUniformBytes] makes of a digest. *)
Definition hash_to_scalar (input : list byte) : Scalar.t :=
  Bytes.le_decode (sha512.Sum512 input) mod Scalar.L.

(** The caller's key with bit 7 of byte 31 cleared: the value of
    [publicKey] in [verify] after its first statement. *)
Definition masked (publicKey : list byte) : list byte :=
  Bytes.update (fun b => Bytes.band b x7f) 31 publicKey.

(** A state holding the message [msg] at location 1 and the signature
    [sig] at location 2. *)
Definition state_with (msg sig : list byte) : state :=
  State (<[2%positive := sig]> (<[1%positive := msg]> ∅)) [].

(** The key that differs from [publicKey] in bit 7 of byte 31 and
    nowhere else. *)
Definition flip_sign_bit (publicKey : list byte) : list byte :=
  Bytes.update (fun b => Bytes.of_Z (Z.lxor (Bytes.to_Z b) 128)) 31 publicKey.

(** A state holding the private key [key] at location 1, the message
    [msg] at location 2 and the caller's randomness at location 3. *)
Definition caller_state (key msg random : list byte) : state :=
  State (<[3%positive := random]>
           (<[2%positive := msg]> (<[1%positive := key]> ∅))) [].

(** The scenario of the specification: an all-zero private key, the empty
    message and all-zero randomness. *)
Definition scenario : state :=
  caller_state (Bytes.zeros 32) [] (Bytes.zeros 64).

(** The Key Converter: the compressed Edwards public key of a private
    key, as computed by the first statements of [sign]. *)
Definition publicKeyOf (key : list byte) : option (list byte) :=
  match Scalar.SetBytesWithClamping key with
  | Some privScalar => Some (Point.Bytes (Point.ScalarBaseMult privScalar))
  | None => None
  end.

(** The public key of the all-zero private key (lemma
    [scenario_publicKey_derived]); bit 7 of its byte 31 is set. *)
Definition scenario_publicKey : list byte :=
  Bytes.be_encode 32
    0x693e47972caf527c7883ad1b39822f026f47db2ab0e1919955b8993aa04411d1.

(** A signature whose point field and scalar field both decode. *)
Definition scenario_signature_masked : list byte :=
  Bytes.be_encode 64
    0xe7cc0f29e4488483182ddbc812ae261daa92b04a5d5c4b7db1af7a90117425ad969598a20fba3c45946d293635ba458e0de6afc1836c72540caedddd85bfb001.

(** Test 1 of RFC 8032, section 7.1: an Ed25519 public key and its
    signature of the empty message. *)
Definition rfc8032_publicKey : list byte :=
  Bytes.be_encode 32
    0xd75a980182b10ab7d54bfed3c964073a0ee172f3daa62325af021a68f707511a.

Definition rfc8032_signature : list byte :=
  Bytes.be_encode 64
    0xe5564300c360ac729086e2cc806e828a84877f1eb8e5d974d873e065224901555fb8821590a33bacc61e39701cf9b46bd25bf5f0595bbe24655141438e7a100b.

(** A private key whose clamped value is [4 * L + 4], so that the scalar
    used by [sign] is 4; the derived public key has its sign bit clear. *)
Definition sign_bit_clear_key : list byte :=
  Bytes.le_encode 32 (4 * Scalar.L + 4).

(** A private key whose clamped value is [5 * L + 7], so that the scalar
    used by [sign] is 7; the derived public key has its sign bit set. *)
Definition sign_bit_set_key : list byte :=
  Bytes.le_encode 32 (5 * Scalar.L + 7).

(** The encoding of the neutral element [(0, 1)] of the curve. *)
Definition identity_bytes : list byte := x01 :: Bytes.zeros 31.

(** Points [(0 : y : y : 0)], the representations of the neutral element
    with reduced coordinates. *)
Definition neutral (P : Point.t) : Prop :=
  Point.X P = 0 /\ Point.T P = 0 /\ Point.Y P = Point.Zc P /\
  0 <= Point.Y P < field.p.

(** ** Checks of the models against published values *)

Example sha512_abc :
  Bytes.be_decode (sha512.Sum512 ["a"; "b"; "c"]%byte) =
  0xddaf35a193617abacc417349ae20413112e6fa4e89a97ea20a9eeee64b55d39a2192992a274fc1a836ba3c23a3feebbd454d4423643ce80e2a9ac94fa54ca49f.
Proof. vm_compute. reflexivity. Qed.

Example sha512_empty :
  Bytes.be_decode (sha512.Sum512 []) =
  0xcf83e1357eefb8bdf1542850d66d8007d620e4050b5715dc83f4a921d36ce9ce47d0d13c5d85f2b0ff8318d2877eec2f63b931bd47417a81a538327af927da3e.
Proof. vm_compute. reflexivity. Qed.

Example sqrtM1_square : field.Square field.sqrtM1 = field.p - 1.
Proof. vm_compute. reflexivity. Qed.

Example d_value : field.Multiply Point.d 121666 = field.Negate 121665.
Proof. vm_compute. reflexivity. Qed.

Example generator_y : field.Multiply 5 (Point.Y Point.generator) = 4.
Proof. vm_compute. reflexivity. Qed.

Example generator_decodes :
  Point.SetBytes (Point.Bytes Point.generator) = Some Point.generator.
Proof. vm_compute. reflexivity. Qed.

Example base_bytes :
  Bytes.be_decode (Point.Bytes Point.generator) =
  0x5866666666666666666666666666666666666666666666666666666666666666.
Proof. vm_compute. reflexivity. Qed.

(** ** Facts about byte buffers *)

Module BytesFacts.
Import Bytes.

Lemma to_Z_range (b : byte) : 0 <= to_Z b < 256.
Proof.
  unfold to_Z. pose proof (Byte.to_N_bounded b) as Hb.
  split; [apply N2Z.is_nonneg | lia].
Qed.

Lemma to_of_Z (z : Z) : to_Z (of_Z z) = z mod 256.
Proof.
  unfold of_Z, to_Z.
  assert (Hr : 0 <= z mod 256 < 256) by (apply Z.mod_pos_bound; lia).
  destruct (Byte.of_N (Z.to_N (z mod 256))) as [b|] eqn:E.
  - apply Byte.to_of_N in E. rewrite E. apply Z2N.id; lia.
  - apply Byte.of_N_None_iff in E. lia.
Qed.

Lemma of_to_Z (b : byte) : of_Z (to_Z b) = b.
Proof.
  unfold of_Z. rewrite Z.mod_small by apply to_Z_range.
  unfold to_Z. rewrite N2Z.id, Byte.of_to_N. reflexivity.
Qed.

Lemma to_Z_inj (b c : byte) : to_Z b = to_Z c -> b = c.
Proof. intros H. rewrite <- (of_to_Z b), <- (of_to_Z c), H. reflexivity. Qed.

Lemma length_le_encode (n : nat) (z : Z) : length (le_encode n z) = n.
Proof. revert z. induction n as [|n IH]; intros z; simpl; [|rewrite IH]; reflexivity. Qed.

Lemma lookup_le_encode (n i : nat) (z : Z) :
  (i < n)%nat -> le_encode n z !! i = Some (of_Z (z / 256 ^ Z.of_nat i)).
Proof.
  revert i z. induction n as [|n IH]; intros i z Hi; [lia|].
  destruct i as [|i].
  - simpl. rewrite Z.div_1_r. reflexivity.
  - change (le_encode (S n) z !! S i) with (le_encode n (z / 256) !! i).
    rewrite IH by lia. do 2 f_equal.
    rewrite Nat2Z.inj_succ, Z.pow_succ_r by lia.
    rewrite Z.div_div by lia. reflexivity.
Qed.

Lemma le_decode_nonneg (bs : list byte) : 0 <= le_decode bs.
Proof.
  induction bs as [|b bs IH]; simpl; [lia|].
  pose proof (to_Z_range b). lia.
Qed.

(** A byte of a buffer bounds the little-endian value from below. *)
Lemma le_decode_lookup_le (bs : list byte) (i : nat) (b : byte) :
  bs !! i = Some b -> 256 ^ Z.of_nat i * to_Z b <= le_decode bs.
Proof.
  revert i. induction bs as [|c bs IH]; intros i Hi; [discriminate|].
  destruct i as [|i]; simpl in Hi.
  - injection Hi as ->. change (le_decode (b :: bs)) with (to_Z b + 256 * le_decode bs).
    pose proof (le_decode_nonneg bs). rewrite Z.pow_0_r. lia.
  - apply IH in Hi.
    change (le_decode (c :: bs)) with (to_Z c + 256 * le_decode bs).
    rewrite Nat2Z.inj_succ, Z.pow_succ_r by lia.
    pose proof (to_Z_range c). lia.
Qed.

Lemma lookup_get (a : list byte) (i : nat) :
  (i < length a)%nat -> a !! i = Some (get a i).
Proof.
  intros H. unfold get. destruct (a !! i) eqn:E; [reflexivity|].
  apply lookup_ge_None in E. lia.
Qed.

Lemma length_update (f : byte -> byte) (i : nat) (a : list byte) :
  length (update f i a) = length a.
Proof. apply length_alter. Qed.

Lemma length_zeros (n : nat) : length (zeros n) = n.
Proof. apply length_replicate. Qed.

(** Copying a buffer that fills the destination from [off] to its end. *)
Lemma copy_at_0_32 (dst src : list byte) :
  length dst = 64%nat -> length src = 32%nat ->
  copy_at 0 dst src = src ++ drop 32 dst.
Proof.
  intros Hd Hs. unfold copy_at. rewrite Hd, Hs. simpl.
  rewrite take_ge by lia. reflexivity.
Qed.

Lemma copy_at_32_32 (pre dst src : list byte) :
  length pre = 32%nat -> length dst = 32%nat -> length src = 32%nat ->
  copy_at 32 (pre ++ dst) src = pre ++ src.
Proof.
  intros Hp Hd Hs. unfold copy_at.
  rewrite length_app, Hp, Hd, Hs.
  rewrite take_app_length' by lia.
  rewrite (take_ge src) by lia.
  rewrite drop_ge by (rewrite length_app; lia).
  rewrite app_nil_r. reflexivity.
Qed.

(** Masks on single bytes. *)
Lemma band_x80 (t : byte) : band t x80 = if bit 7 t then x80 else x00.
Proof. destruct t; reflexivity. Qed.

Lemma bor_x00 (b : byte) : bor b x00 = b.
Proof. destruct b; reflexivity. Qed.

Lemma top_clear_bor_x80 (b : byte) :
  to_Z b < 128 -> band (bor b x80) x7f = b /\ bit 7 (bor b x80) = true.
Proof.
  intros H. destruct b; first [ split; reflexivity | exfalso; revert H; vm_compute; congruence ].
Qed.

Lemma top_clear_mask (b : byte) :
  to_Z b < 128 -> band b x7f = b /\ bit 7 b = false.
Proof.
  intros H. destruct b; first [ split; reflexivity | exfalso; revert H; vm_compute; congruence ].
Qed.

Lemma bit7_ge (b : byte) : bit 7 b = true -> 128 <= to_Z b.
Proof. destruct b; first [ discriminate | intros _; vm_compute; congruence ]. Qed.

Lemma bit7_bor_x80 (b : byte) : bit 7 (bor b x80) = true.
Proof. destruct b; reflexivity. Qed.

End BytesFacts.

(** ** Facts about the SHA-512 model *)

Module sha512Facts.
Import sha512.

Lemma length_compress (hs : list Z) (block : list byte) :
  length hs = 8%nat -> length (compress hs block) = 8%nat.
Proof.
  intros H. unfold compress.
  generalize (fold_left round (zip K (schedule block)) (vars_of hs)).
  intros [a b c d e f g h]. rewrite length_zip_with, H. reflexivity.
Qed.

Lemma length_blocks (n : nat) (hs : list Z) (bs : list byte) :
  length hs = 8%nat -> length (blocks n hs bs) = 8%nat.
Proof.
  revert hs bs. induction n as [|n IH]; intros hs bs H; simpl; [exact H|].
  apply IH, length_compress, H.
Qed.

Lemma length_join_words (ws : list Z) :
  length (mjoin (Bytes.be_encode 8 <$> ws)) = (8 * length ws)%nat.
Proof.
  induction ws as [|w ws IH]; [reflexivity|].
  rewrite fmap_cons. change (mjoin (?x :: ?l)) with (x ++ mjoin l). rewrite length_app, IH.
  unfold Bytes.be_encode. rewrite length_reverse, BytesFacts.length_le_encode.
  simpl. lia.
Qed.

(** The digest has 64 bytes, whatever the input. *)
Lemma length_Sum512 (msg : list byte) : length (Sum512 msg) = 64%nat.
Proof.
  unfold Sum512. cbv zeta. rewrite length_join_words, length_blocks; reflexivity.
Qed.

Lemma written_Write (d : digest) (p : list byte) :
  written (Write d p) = written d ++ p.
Proof. reflexivity. Qed.

End sha512Facts.

(** ** Running the monadic code *)

Lemma bind_Ok {A B} (m : M A) (k : A -> M B) (σ σ' : state) (a : A) :
  m σ = Ok (a, σ') -> bind m k σ = k a σ'.
Proof. unfold bind. intros ->. reflexivity. Qed.

Lemma load_Ok (l : loc) (a : list byte) (σ : state) :
  heap σ !! l = Some a -> load l σ = Ok (a, σ).
Proof. unfold load. intros ->. reflexivity. Qed.

Lemma modify_Ok (l : loc) (f : list byte -> list byte) (a : list byte) (σ : state) :
  heap σ !! l = Some a ->
  modify l f σ = Ok (tt, State (<[l := f a]> (heap σ)) (hashed σ)).
Proof. unfold modify. intros ->. reflexivity. Qed.

Lemma sum_into_Ok (hash : sha512.digest) (arr : list byte) (σ : state) :
  length arr = 64%nat ->
  sum_into hash arr σ =
    Ok (sha512.Sum512 (sha512.written hash),
        State (heap σ) (hashed σ ++ [sha512.written hash])).
Proof.
  intros Harr. unfold sum_into, sha512.Sum. cbv zeta.
  rewrite take_0, app_nil_l, sha512Facts.length_Sum512, Harr.
  rewrite decide_True by lia.
  rewrite drop_ge by lia. rewrite app_nil_r. reflexivity.
Qed.

Lemma SetUniformBytes_digest (input : list byte) :
  Scalar.SetUniformBytes (sha512.Sum512 input) = Some (hash_to_scalar input).
Proof.
  unfold Scalar.SetUniformBytes.
  rewrite decide_True by apply sha512Facts.length_Sum512. reflexivity.
Qed.

Lemma hash_step (hash : sha512.digest) (σ : state) {B} (k : Scalar.t -> M B) :
  bind (sum_into hash (Bytes.zeros 64))
       (fun d => bind (must (Scalar.SetUniformBytes d)) k) σ =
  k (hash_to_scalar (sha512.written hash))
    (State (heap σ) (hashed σ ++ [sha512.written hash])).
Proof.
  erewrite bind_Ok by (apply sum_into_Ok, BytesFacts.length_zeros).
  rewrite SetUniformBytes_digest. reflexivity.
Qed.

Lemma length_Point_Bytes (P : Point.t) : length (Point.Bytes P) = 32%nat.
Proof.
  unfold Point.Bytes. cbv zeta.
  rewrite BytesFacts.length_update. apply BytesFacts.length_le_encode.
Qed.

Lemma length_Scalar_Bytes (s : Scalar.t) : length (Scalar.Bytes s) = 32%nat.
Proof. apply BytesFacts.length_le_encode. Qed.

Lemma sign_run (σ : state) (privateKey message : loc)
    (key msg random : list byte) (privScalar : Scalar.t) :
  heap σ !! privateKey = Some key ->
  heap σ !! message = Some msg ->
  Scalar.SetBytesWithClamping key = Some privScalar ->
  sign privateKey message random σ =
    let publicKey := Point.Bytes (Point.ScalarBaseMult privScalar) in
    let nonce_input := diversifier ++ key ++ msg ++ random in
    let r := hash_to_scalar nonce_input in
    let encodedR := Point.Bytes (Point.ScalarBaseMult r) in
    let hram_input := encodedR ++ publicKey ++ msg in
    let h := hash_to_scalar hram_input in
    let s := Scalar.MultiplyAdd h privScalar r in
    let l := fresh (dom (heap σ)) in
    Ok (l, State
             (<[l := Bytes.update
                       (fun b => Bytes.bor b (Bytes.band (Bytes.get publicKey 31) x80))
                       63 (encodedR ++ Scalar.Bytes s)]> (heap σ))
             (hashed σ ++ [nonce_input; hram_input])).
Proof.
  intros Hkey Hmsg Hclamp. cbv zeta. unfold sign.
  erewrite bind_Ok by (apply load_Ok, Hkey).
  rewrite Hclamp.
  erewrite bind_Ok by (apply load_Ok, Hkey).
  erewrite bind_Ok by (apply load_Ok, Hmsg).
  rewrite hash_step.
  erewrite bind_Ok by (apply load_Ok, Hmsg).
  rewrite hash_step.
  unfold sha512.Reset, sha512.Write, sha512.New. cbn [sha512.written heap hashed].
  rewrite !app_nil_l.
  set (nonce_input := diversifier ++ key ++ msg ++ random).
  replace (((diversifier ++ key) ++ msg) ++ random) with nonce_input
    by (unfold nonce_input; rewrite <- !app_assoc; reflexivity).
  set (publicKey := Point.Bytes (Point.ScalarBaseMult privScalar)).
  set (encodedR := Point.Bytes (Point.ScalarBaseMult (hash_to_scalar nonce_input))).
  rewrite <- (app_assoc encodedR publicKey msg).
  set (hram_input := encodedR ++ publicKey ++ msg).
  set (s := Scalar.MultiplyAdd _ _ _).
  set (l := fresh (dom (heap σ))).
  unfold bind at 1, new. cbn [heap hashed]. fold l.
  erewrite bind_Ok by (apply modify_Ok; cbn [heap]; apply lookup_insert_eq).
  cbn [heap hashed]. rewrite insert_insert_eq.
  erewrite bind_Ok by (apply modify_Ok; cbn [heap]; apply lookup_insert_eq).
  cbn [heap hashed]. rewrite insert_insert_eq.
  unfold index.
  rewrite (BytesFacts.lookup_get publicKey 31)
    by (unfold publicKey; rewrite length_Point_Bytes; lia).
  unfold bind at 1, ret.
  erewrite bind_Ok by (apply modify_Ok; cbn [heap]; apply lookup_insert_eq).
  cbn [heap hashed]. rewrite insert_insert_eq.
  rewrite BytesFacts.copy_at_0_32
    by (first [apply BytesFacts.length_zeros | apply length_Point_Bytes]).
  rewrite BytesFacts.copy_at_32_32; cycle 1.
  { apply length_Point_Bytes. }
  { rewrite length_drop, BytesFacts.length_zeros. reflexivity. }
  { apply length_Scalar_Bytes. }
  rewrite <- app_assoc. reflexivity.
Qed.

Lemma SetBytesWithClamping_is_Some (key : list byte) :
  length key = 32%nat -> is_Some (Scalar.SetBytesWithClamping key).
Proof.
  intros H. unfold Scalar.SetBytesWithClamping, Scalar.SetUniformBytes.
  rewrite decide_True by exact H. cbv zeta.
  rewrite decide_True; [eexists; reflexivity|].
  rewrite !BytesFacts.length_update. unfold Bytes.copy_at.
  rewrite !length_app, !length_take, length_drop, BytesFacts.length_zeros, H.
  reflexivity.
Qed.

Lemma verify_bad_key (σ : state) (publicKey : list byte) (message signature : loc) :
  Point.SetBytes (masked publicKey) = None ->
  verify publicKey message signature σ = Ok (false, σ).
Proof. unfold verify, masked. intros ->. reflexivity. Qed.

Lemma verify_bad_R (σ : state) (publicKey : list byte) (message signature : loc)
    (sig : list byte) :
  heap σ !! signature = Some sig ->
  Point.SetBytes (take 32 sig) = None ->
  verify publicKey message signature σ = Ok (false, σ).
Proof.
  intros Hsig HR. unfold verify. cbv zeta.
  destruct (Point.SetBytes (Bytes.update _ _ _)) as [A|]; [|reflexivity].
  erewrite bind_Ok by (apply load_Ok, Hsig).
  rewrite HR. reflexivity.
Qed.

Lemma verify_bad_S (σ : state) (publicKey : list byte) (message signature : loc)
    (sig : list byte) :
  heap σ !! signature = Some sig ->
  Scalar.SetCanonicalBytes (drop 32 sig) = None ->
  verify publicKey message signature σ = Ok (false, σ).
Proof.
  intros Hsig HS. unfold verify. cbv zeta.
  destruct (Point.SetBytes (Bytes.update _ _ _)) as [A|]; [|reflexivity].
  erewrite bind_Ok by (apply load_Ok, Hsig).
  destruct (Point.SetBytes (take 32 sig)) as [R|]; [|reflexivity].
  erewrite bind_Ok by (apply load_Ok, Hsig).
  rewrite HS. reflexivity.
Qed.

Lemma verify_run (σ : state) (publicKey : list byte) (message signature : loc)
    (sig msg : list byte) (A R : Point.t) (s : Scalar.t) :
  heap σ !! signature = Some sig ->
  heap σ !! message = Some msg ->
  Point.SetBytes (masked publicKey) = Some A ->
  Point.SetBytes (take 32 sig) = Some R ->
  Scalar.SetCanonicalBytes (drop 32 sig) = Some s ->
  verify publicKey message signature σ =
    let hram_input := take 32 sig ++ masked publicKey ++ msg in
    let h := hash_to_scalar hram_input in
    Ok (bool_decide (Point.Equal (Point.VarTimeDoubleScalarBaseMult h A s) R = 1),
        State (heap σ) (hashed σ ++ [hram_input])).
Proof.
  intros Hsig Hmsg HA HR HS. unfold verify. cbv zeta.
  fold (masked publicKey). rewrite HA.
  erewrite bind_Ok by (apply load_Ok, Hsig). rewrite HR.
  erewrite bind_Ok by (apply load_Ok, Hsig). rewrite HS.
  erewrite bind_Ok by (apply load_Ok, Hsig).
  erewrite bind_Ok by (apply load_Ok, Hmsg).
  rewrite hash_step.
  unfold sha512.Write, sha512.New. cbn [sha512.written].
  rewrite app_nil_l, <- app_assoc. reflexivity.
Qed.

(** A scalar field of 32 bytes whose value is at least [L] does not
    decode. *)
Lemma SetCanonicalBytes_ge_L (x : list byte) :
  Scalar.L <= Bytes.le_decode x -> Scalar.SetCanonicalBytes x = None.
Proof.
  intros H. unfold Scalar.SetCanonicalBytes.
  destruct (decide _); [|reflexivity].
  destruct (Z.ltb_spec (Bytes.le_decode x) Scalar.L); [lia|reflexivity].
Qed.

(** ** Facts about the field model *)

Module fieldFacts.
Import field.

Lemma fold255_spec (x : Z) :
  0 <= x -> fold255 x = x mod 2 ^ 255 + 19 * (x / 2 ^ 255).
Proof.
  intros H. unfold fold255.
  rewrite Z.land_ones, Z.shiftr_div_pow2 by lia. reflexivity.
Qed.

Lemma fold255_mod (x : Z) : 0 <= x -> fold255 x mod p = x mod p.
Proof.
  intros H. rewrite fold255_spec by exact H.
  rewrite (Z.div_mod x (2 ^ 255)) at 3 by lia.
  replace (2 ^ 255 * (x / 2 ^ 255) + x mod 2 ^ 255)
    with (x mod 2 ^ 255 + 19 * (x / 2 ^ 255) + (x / 2 ^ 255) * p)
    by (change (2 ^ 255) with (p + 19); ring).
  rewrite Z.mod_add by (unfold p; lia). reflexivity.
Qed.

(** [reduce] is reduction modulo [p] on the range of products of two
    reduced elements. *)
Lemma reduce_spec (x : Z) : 0 <= x < 2 ^ 510 -> reduce x = x mod p.
Proof.
  intros [H0 H1].
  assert (Hq : 0 <= x / 2 ^ 255 < 2 ^ 255).
  { split; [apply Z.div_pos; lia|].
    apply Z.div_lt_upper_bound; [lia|].
    change (2 ^ 255 * 2 ^ 255) with (2 ^ 510). exact H1. }
  assert (Hr : 0 <= x mod 2 ^ 255 < 2 ^ 255) by (apply Z.mod_pos_bound; lia).
  assert (Hy1 : 0 <= fold255 x < 20 * 2 ^ 255)
    by (rewrite fold255_spec by exact H0; lia).
  assert (Hq1 : 0 <= fold255 x / 2 ^ 255 < 20).
  { split; [apply Z.div_pos; lia|]. apply Z.div_lt_upper_bound; lia. }
  assert (Hr1 : 0 <= fold255 x mod 2 ^ 255 < 2 ^ 255)
    by (apply Z.mod_pos_bound; lia).
  assert (Hy2 : 0 <= fold255 (fold255 x) < 2 ^ 255 + 380)
    by (rewrite fold255_spec by lia; lia).
  assert (Hm : fold255 (fold255 x) mod p = x mod p)
    by (rewrite !fold255_mod by lia; reflexivity).
  unfold reduce. cbv zeta.
  change (2 ^ 255) with (p + 19) in Hy2.
  destruct (Z.ltb_spec (fold255 (fold255 x)) p) as [Hlt|Hge].
  - rewrite <- Hm. symmetry. apply Z.mod_small. lia.
  - rewrite <- Hm.
    apply (Z.mod_unique_pos _ _ 1); unfold p in *; lia.
Qed.

End fieldFacts.

(** ** Properties of [verify] *)

(** C6: a signature whose last 32 bytes encode a value greater than or
    equal to the group order [L] is rejected: [verify] returns [false]
    (a returned boolean, not a panic) for every public key and message,
    and leaves the state as it was. *)
Theorem verify_rejects_noncanonical_S
    (σ : state) (publicKey : list byte) (message signature : loc)
    (sig : list byte) :
  heap σ !! signature = Some sig ->
  length sig = 64%nat ->
  Scalar.L <= Bytes.le_decode (drop 32 sig) ->
  verify publicKey message signature σ = Ok (false, σ).
Proof.
  intros Hsig _ HS.
  eapply verify_bad_S; [exact Hsig|].
  apply SetCanonicalBytes_ge_L, HS.
Qed.

Lemma verify_rejects_noncanonical_S_witness :
  verify (Bytes.zeros 32) 1%positive 2%positive
         (state_with [] (replicate 64 xff)) =
  Ok (false, state_with [] (replicate 64 xff)).
Proof.
  apply (verify_rejects_noncanonical_S _ _ _ _ (replicate 64 xff)).
  - reflexivity.
  - reflexivity.
  - vm_compute. discriminate.
Defined.

(** C9: [verify] is total and fails closed.  For a 32-byte public key, a
    message and a 64-byte signature it returns a boolean and never
    panics; and when the public key (after the sign bit is stripped), the
    point [R] or the scalar [S] does not decode, the boolean is [false]. *)
Theorem verify_total_and_fails_closed
    (σ : state) (publicKey : list byte) (message signature : loc)
    (msg sig : list byte) :
  heap σ !! message = Some msg ->
  heap σ !! signature = Some sig ->
  length publicKey = 32%nat ->
  length sig = 64%nat ->
  (exists (b : bool) (σ' : state),
      verify publicKey message signature σ = Ok (b, σ')) /\
  (Point.SetBytes (masked publicKey) = None ->
   verify publicKey message signature σ = Ok (false, σ)) /\
  (Point.SetBytes (take 32 sig) = None ->
   verify publicKey message signature σ = Ok (false, σ)) /\
  (Scalar.SetCanonicalBytes (drop 32 sig) = None ->
   verify publicKey message signature σ = Ok (false, σ)).
Proof.
  intros Hmsg Hsig _ _. split; [|split; [|split]].
  - destruct (Point.SetBytes (masked publicKey)) as [A|] eqn:HA;
      [|eexists _, _; apply verify_bad_key, HA].
    destruct (Point.SetBytes (take 32 sig)) as [R|] eqn:HR;
      [|eexists _, _; eapply verify_bad_R; eassumption].
    destruct (Scalar.SetCanonicalBytes (drop 32 sig)) as [s|] eqn:HS;
      [|eexists _, _; eapply verify_bad_S; eassumption].
    eexists _, _. eapply verify_run; eassumption.
  - apply verify_bad_key.
  - apply verify_bad_R, Hsig.
  - apply verify_bad_S, Hsig.
Qed.

Lemma verify_total_and_fails_closed_witness :
  exists (b : bool) (σ' : state),
    verify (Bytes.zeros 32) 1%positive 2%positive
           (state_with [] (Bytes.zeros 64)) = Ok (b, σ').
Proof.
  apply (verify_total_and_fails_closed
           (state_with [] (Bytes.zeros 64)) (Bytes.zeros 32)
           1%positive 2%positive [] (Bytes.zeros 64));
    reflexivity.
Defined.

Lemma masked_flip_sign_bit (publicKey : list byte) :
  masked (flip_sign_bit publicKey) = masked publicKey.
Proof.
  unfold masked, flip_sign_bit, Bytes.update.
  rewrite list_alter_alter_eq. apply list_alter_ext; [|reflexivity].
  intros b _. destruct b; reflexivity.
Qed.

(** C10: the result of [verify] does not depend on bit 7 of byte 31 of
    the public key: on a 32-byte key and on the key that differs from it
    in that bit only, with the same message and signature, the two runs
    are equal (same boolean, same final state). *)
Theorem verify_ignores_sign_bit
    (σ : state) (publicKey : list byte) (message signature : loc) :
  length publicKey = 32%nat ->
  verify (flip_sign_bit publicKey) message signature σ =
  verify publicKey message signature σ.
Proof.
  intros _. unfold verify. cbv zeta.
  fold (masked (flip_sign_bit publicKey)). fold (masked publicKey).
  rewrite masked_flip_sign_bit. reflexivity.
Qed.

Lemma verify_ignores_sign_bit_witness :
  verify (flip_sign_bit (Bytes.zeros 32)) 1%positive 2%positive
         (state_with [] (Bytes.zeros 64)) =
  verify (Bytes.zeros 32) 1%positive 2%positive
         (state_with [] (Bytes.zeros 64)).
Proof.
  apply (verify_ignores_sign_bit _ (Bytes.zeros 32)). reflexivity.
Defined.

(** The flipped key is another key, and flipping twice gives the key
    back: the two keys differ, in bit 7 of byte 31 only. *)
Lemma flip_sign_bit_involutive (publicKey : list byte) :
  flip_sign_bit (flip_sign_bit publicKey) = publicKey.
Proof.
  unfold flip_sign_bit, Bytes.update. rewrite list_alter_alter_eq.
  apply list_alter_id. intros b. destruct b; reflexivity.
Qed.

Lemma flip_sign_bit_bit (publicKey : list byte) :
  length publicKey = 32%nat ->
  Bytes.bit 7 (Bytes.get (flip_sign_bit publicKey) 31) =
  negb (Bytes.bit 7 (Bytes.get publicKey 31)).
Proof.
  intros H. unfold Bytes.get at 1, flip_sign_bit, Bytes.update.
  rewrite list_lookup_alter_eq, (BytesFacts.lookup_get publicKey 31) by lia.
  simpl. destruct (Bytes.get publicKey 31); reflexivity.
Qed.

(** ** Properties of [sign] *)

Lemma fresh_lookup_ne (h : gmap loc (list byte)) (l : loc) (a : list byte) :
  h !! l = Some a -> fresh (dom h) <> l.
Proof.
  intros H E. apply (is_fresh (dom h)). rewrite E.
  apply elem_of_dom. eexists. exact H.
Qed.

(** C7: [sign] is deterministic.  Two invocations that find the same
    private scalar and the same message in memory and receive the same
    randomness return signatures with the same 64 bytes, whatever else
    the two memories hold and wherever the two results are allocated. *)
Theorem sign_deterministic
    (σ1 σ2 : state) (k1 m1 k2 m2 : loc) (key msg random : list byte) :
  heap σ1 !! k1 = Some key -> heap σ1 !! m1 = Some msg ->
  heap σ2 !! k2 = Some key -> heap σ2 !! m2 = Some msg ->
  length key = 32%nat -> length random = 64%nat ->
  exists (l1 l2 : loc) (σ1' σ2' : state) (sig : list byte),
    sign k1 m1 random σ1 = Ok (l1, σ1') /\
    sign k2 m2 random σ2 = Ok (l2, σ2') /\
    heap σ1' !! l1 = Some sig /\
    heap σ2' !! l2 = Some sig /\
    length sig = 64%nat.
Proof.
  intros Hk1 Hm1 Hk2 Hm2 Hlen _.
  destruct (SetBytesWithClamping_is_Some key Hlen) as [a Ha].
  eexists _, _, _, _, _.
  split; [apply (sign_run σ1 k1 m1 key msg random a Hk1 Hm1 Ha)|].
  split; [apply (sign_run σ2 k2 m2 key msg random a Hk2 Hm2 Ha)|].
  cbn [heap]. split; [apply lookup_insert_eq|].
  split; [apply lookup_insert_eq|].
  rewrite BytesFacts.length_update, length_app,
    length_Point_Bytes, length_Scalar_Bytes. reflexivity.
Qed.

Lemma sign_deterministic_witness :
  exists (l1 l2 : loc) (σ1' σ2' : state) (sig : list byte),
    sign 1%positive 2%positive (Bytes.zeros 64)
         (caller_state (Bytes.zeros 32) [] (Bytes.zeros 64)) = Ok (l1, σ1') /\
    sign 2%positive 1%positive (Bytes.zeros 64)
         (caller_state [] (Bytes.zeros 32) []) = Ok (l2, σ2') /\
    heap σ1' !! l1 = Some sig /\
    heap σ2' !! l2 = Some sig /\
    length sig = 64%nat.
Proof.
  apply (sign_deterministic _ _ _ _ _ _ (Bytes.zeros 32) [] (Bytes.zeros 64));
    reflexivity.
Defined.

(** C8: [sign] leaves the caller's buffers as they were: the 32 bytes of
    the private scalar, the bytes of the message and the 64 bytes of the
    randomness (of which [sign] received a copy) hold the same values
    after the call as before. *)
Theorem sign_leaves_inputs_unchanged
    (σ : state) (privateKey message rnd : loc) (key msg random : list byte) :
  heap σ !! privateKey = Some key ->
  heap σ !! message = Some msg ->
  heap σ !! rnd = Some random ->
  length key = 32%nat -> length random = 64%nat ->
  exists (l : loc) (σ' : state),
    sign privateKey message random σ = Ok (l, σ') /\
    heap σ' !! privateKey = Some key /\
    heap σ' !! message = Some msg /\
    heap σ' !! rnd = Some random.
Proof.
  intros Hk Hm Hr Hlen _.
  destruct (SetBytesWithClamping_is_Some key Hlen) as [a Ha].
  eexists _, _.
  split; [apply (sign_run σ privateKey message key msg random a Hk Hm Ha)|].
  cbn [heap].
  rewrite !lookup_insert_ne by (eapply fresh_lookup_ne; eassumption).
  auto.
Qed.

Lemma sign_leaves_inputs_unchanged_witness :
  exists (l : loc) (σ' : state),
    sign 1%positive 2%positive (Bytes.zeros 64)
         (caller_state (Bytes.zeros 32) [] (Bytes.zeros 64)) = Ok (l, σ') /\
    heap σ' !! 1%positive = Some (Bytes.zeros 32) /\
    heap σ' !! 2%positive = Some [] /\
    heap σ' !! 3%positive = Some (Bytes.zeros 64).
Proof.
  apply (sign_leaves_inputs_unchanged _ _ _ 3%positive); reflexivity.
Defined.

(** The nonce-derivation prefix is [0xFE] followed by 31 bytes [0xFF]. *)
Lemma diversifier_bytes : diversifier = xfe :: replicate 31 xff.
Proof. reflexivity. Qed.

(** The inputs on which [sign] computes its two digests. *)
Lemma sign_hash_inputs (σ σ' : state) (privateKey message l : loc)
    (key msg random : list byte) :
  heap σ !! privateKey = Some key ->
  heap σ !! message = Some msg ->
  length key = 32%nat ->
  sign privateKey message random σ = Ok (l, σ') ->
  exists hram_input : list byte,
    hashed σ' = hashed σ ++ [diversifier ++ key ++ msg ++ random; hram_input].
Proof.
  intros Hk Hm Hlen Hrun.
  destruct (SetBytesWithClamping_is_Some key Hlen) as [a Ha].
  rewrite (sign_run σ privateKey message key msg random a Hk Hm Ha) in Hrun.
  cbv zeta in Hrun.
  apply (f_equal (fun r : result (loc * state) =>
                    match r with
                    | Ok (_, s) => hashed s
                    | Panic _ => []
                    end)) in Hrun.
  cbv beta iota delta [hashed] in Hrun.
  eexists. symmetry. exact Hrun.
Qed.

(** C4, as stated, fails: on the scenario input the first hash input of
    [sign] is not 32 bytes [0xFE] followed by the private scalar, the
    message and the randomness. *)
Lemma sign_nonce_prefix_not_all_FE :
  ~ (exists (l : loc) (σ' : state) (rest : list (list byte)),
        sign 1%positive 2%positive (Bytes.zeros 64) scenario = Ok (l, σ') /\
        hashed σ' =
          (replicate 32 xfe ++ Bytes.zeros 32 ++ [] ++ Bytes.zeros 64) :: rest).
Proof.
  intros (l & σ' & rest & Hrun & Hlog).
  destruct (sign_hash_inputs scenario σ' 1%positive 2%positive l
              (Bytes.zeros 32) [] (Bytes.zeros 64)
              eq_refl eq_refl eq_refl Hrun) as [hram Hh].
  rewrite Hh in Hlog.
  apply (f_equal (fun ls : list (list byte) =>
                    match ls with
                    | input :: _ => input !! 1%nat
                    | [] => None
                    end)) in Hlog.
  vm_compute in Hlog. discriminate Hlog.
Qed.

(** C4, amended: for every input to [sign], the nonce-derivation hash
    input is the fixed 32-byte prefix [0xFE, 0xFF, ..., 0xFF] (one byte
    [0xFE], then 31 bytes [0xFF]) followed by the 32-byte private scalar,
    the message and the 64-byte randomness; the 64-byte digest, reduced
    modulo the group order [L], is the nonce scalar [r], whose multiple
    [r * B] is encoded in the first 32 bytes of the signature. *)
Theorem sign_nonce_derivation
    (σ : state) (privateKey message : loc) (key msg random : list byte) :
  heap σ !! privateKey = Some key ->
  heap σ !! message = Some msg ->
  length key = 32%nat -> length random = 64%nat ->
  let nonce_input := (xfe :: replicate 31 xff) ++ key ++ msg ++ random in
  let digest := sha512.Sum512 nonce_input in
  let r := Bytes.le_decode digest mod Scalar.L in
  exists (l : loc) (σ' : state) (sig hram_input : list byte),
    sign privateKey message random σ = Ok (l, σ') /\
    hashed σ' = hashed σ ++ [nonce_input; hram_input] /\
    length digest = 64%nat /\
    heap σ' !! l = Some sig /\
    take 32 sig = Point.Bytes (Point.ScalarBaseMult r).
Proof.
  intros Hk Hm Hlen _. cbv zeta.
  destruct (SetBytesWithClamping_is_Some key Hlen) as [a Ha].
  eexists _, _, _, _.
  split; [apply (sign_run σ privateKey message key msg random a Hk Hm Ha)|].
  cbn [heap hashed]. rewrite <- diversifier_bytes.
  split; [reflexivity|].
  split; [apply sha512Facts.length_Sum512|].
  split; [apply lookup_insert_eq|].
  unfold Bytes.update.
  rewrite alter_app_r_alt by (rewrite length_Point_Bytes; lia).
  apply take_app_length'. rewrite length_Point_Bytes. reflexivity.
Qed.

Lemma sign_nonce_derivation_witness :
  exists (l : loc) (σ' : state) (sig hram_input : list byte),
    sign 1%positive 2%positive (Bytes.zeros 64) scenario = Ok (l, σ') /\
    hashed σ' =
      hashed scenario ++
        [(xfe :: replicate 31 xff) ++ Bytes.zeros 32 ++ [] ++ Bytes.zeros 64;
         hram_input] /\
    length (sha512.Sum512
              ((xfe :: replicate 31 xff) ++ Bytes.zeros 32 ++ [] ++ Bytes.zeros 64))
      = 64%nat /\
    heap σ' !! l = Some sig /\
    take 32 sig =
      Point.Bytes
        (Point.ScalarBaseMult
           (Bytes.le_decode
              (sha512.Sum512
                 ((xfe :: replicate 31 xff) ++ Bytes.zeros 32 ++ [] ++ Bytes.zeros 64))
            mod Scalar.L)).
Proof.
  apply (sign_nonce_derivation scenario 1%positive 2%positive
           (Bytes.zeros 32) [] (Bytes.zeros 64));
    reflexivity.
Defined.

(** The top byte of a canonical scalar encoding has its bit 7 clear. *)
Lemma Scalar_Bytes_top (s : Scalar.t) :
  0 <= s < Scalar.L -> Bytes.to_Z (Bytes.get (Scalar.Bytes s) 31) < 128.
Proof.
  intros [H0 H1]. unfold Bytes.get, Scalar.Bytes.
  rewrite BytesFacts.lookup_le_encode by lia. simpl default.
  rewrite BytesFacts.to_of_Z.
  assert (Hq : 0 <= s / 256 ^ Z.of_nat 31 < 17).
  { split; [apply Z.div_pos; lia|].
    apply Z.div_lt_upper_bound; [lia|].
    eapply Z.lt_trans; [exact H1|reflexivity]. }
  rewrite Z.mod_small by lia. lia.
Qed.

Lemma update_get (f : byte -> byte) (a : list byte) (i : nat) :
  (i < length a)%nat ->
  Bytes.get (Bytes.update f i a) i = f (Bytes.get a i).
Proof.
  intros H. unfold Bytes.get at 1, Bytes.update.
  rewrite list_lookup_alter_eq, (BytesFacts.lookup_get a i) by exact H.
  reflexivity.
Qed.

Lemma update_fixed (f : byte -> byte) (a : list byte) (i : nat) :
  f (Bytes.get a i) = Bytes.get a i -> Bytes.update f i a = a.
Proof.
  intros H. unfold Bytes.update.
  transitivity (alter id i a); [|apply list_alter_id; reflexivity].
  apply list_alter_ext; [|reflexivity].
  intros x Hx. unfold Bytes.get in H. rewrite Hx in H. exact H.
Qed.

Lemma update_63_app (f : byte -> byte) (pre a : list byte) :
  length pre = 32%nat ->
  Bytes.update f 63 (pre ++ a) = pre ++ Bytes.update f 31 a.
Proof.
  intros H. unfold Bytes.update.
  rewrite alter_app_r_alt by (rewrite H; lia). rewrite H. reflexivity.
Qed.

(** Setting the sign bit in the top byte of a canonical scalar encoding
    and clearing it again gives the encoding back; the bit set is the
    sign bit of [top]. *)
Lemma restore_sign_bit (b top : byte) :
  Bytes.to_Z b < 128 ->
  Bytes.band (Bytes.bor b (Bytes.band top x80)) x7f = b /\
  Bytes.bit 7 (Bytes.bor b (Bytes.band top x80)) = Bytes.bit 7 top.
Proof.
  intros Hb. rewrite BytesFacts.band_x80.
  destruct (Bytes.bit 7 top).
  - apply BytesFacts.top_clear_bor_x80, Hb.
  - rewrite BytesFacts.bor_x00. apply BytesFacts.top_clear_mask, Hb.
Qed.

(** C5: the signature returned by [sign] is the 32-byte encoding of
    [R = r * B] followed by the 32-byte encoding of
    [S = (r + h * privScalar) mod L], where the public key's sign bit
    has been written over the top bit of the last byte: clearing bit 7 of
    byte 63 gives back the two encodings, and that bit equals bit 7 of
    byte 31 of the public key derived by the signer.  [privScalar] is the
    clamped private scalar, [r] the nonce scalar and [h] the challenge
    scalar. *)
Theorem sign_signature_layout
    (σ : state) (privateKey message : loc) (key msg random : list byte)
    (privScalar : Scalar.t) :
  heap σ !! privateKey = Some key ->
  heap σ !! message = Some msg ->
  length key = 32%nat -> length random = 64%nat ->
  Scalar.SetBytesWithClamping key = Some privScalar ->
  let publicKey := Point.Bytes (Point.ScalarBaseMult privScalar) in
  let r := hash_to_scalar (diversifier ++ key ++ msg ++ random) in
  let encodedR := Point.Bytes (Point.ScalarBaseMult r) in
  let h := hash_to_scalar (encodedR ++ publicKey ++ msg) in
  let S := (r + h * privScalar) mod Scalar.L in
  exists (l : loc) (σ' : state) (sig : list byte),
    sign privateKey message random σ = Ok (l, σ') /\
    heap σ' !! l = Some sig /\
    length sig = 64%nat /\
    take 32 sig = encodedR /\
    Bytes.update (fun b => Bytes.band b x7f) 63 sig = encodedR ++ Scalar.Bytes S /\
    Bytes.bit 7 (Bytes.get sig 63) = Bytes.bit 7 (Bytes.get publicKey 31).
Proof.
  intros Hk Hm _ _ Ha. cbv zeta.
  set (publicKey := Point.Bytes (Point.ScalarBaseMult privScalar)).
  set (r := hash_to_scalar (diversifier ++ key ++ msg ++ random)).
  set (encodedR := Point.Bytes (Point.ScalarBaseMult r)).
  set (h := hash_to_scalar (encodedR ++ publicKey ++ msg)).
  set (S := (r + h * privScalar) mod Scalar.L).
  assert (HS : Scalar.MultiplyAdd h privScalar r = S).
  { unfold Scalar.MultiplyAdd, S. f_equal. ring. }
  assert (Htop : Bytes.to_Z (Bytes.get (Scalar.Bytes S) 31) < 128).
  { apply Scalar_Bytes_top. apply Z.mod_pos_bound. reflexivity. }
  assert (HlR : length encodedR = 32%nat) by apply length_Point_Bytes.
  assert (HlS : length (Scalar.Bytes S) = 32%nat) by apply length_Scalar_Bytes.
  destruct (restore_sign_bit _ (Bytes.get publicKey 31) Htop) as [Hclr Hbit].
  eexists _, _, _.
  split; [apply (sign_run σ privateKey message key msg random privScalar Hk Hm Ha)|].
  cbv zeta. cbn [heap]. fold publicKey r encodedR h. rewrite HS.
  rewrite (update_63_app _ encodedR (Scalar.Bytes S) HlR).
  split; [apply lookup_insert_eq|].
  split; [rewrite length_app, BytesFacts.length_update, HlR, HlS; reflexivity|].
  split; [apply take_app_length'; rewrite HlR; reflexivity|].
  split.
  - rewrite (update_63_app _ encodedR _ HlR). f_equal.
    unfold Bytes.update. rewrite list_alter_alter_eq.
    apply (update_fixed _ (Scalar.Bytes S) 31). exact Hclr.
  - unfold Bytes.get at 1.
    rewrite lookup_app_r by (rewrite HlR; lia).
    rewrite HlR. change (63 - 32)%nat with 31%nat.
    change (default x00 (?a !! 31%nat)) with (Bytes.get a 31).
    rewrite update_get by (rewrite HlS; lia). exact Hbit.
Qed.

Lemma clamp_zero_key :
  Scalar.SetBytesWithClamping (Bytes.zeros 32) = Some (2 ^ 254 mod Scalar.L).
Proof. vm_compute. reflexivity. Qed.

Lemma sign_signature_layout_witness :
  let privScalar := 2 ^ 254 mod Scalar.L in
  let publicKey := Point.Bytes (Point.ScalarBaseMult privScalar) in
  let r := hash_to_scalar (diversifier ++ Bytes.zeros 32 ++ [] ++ Bytes.zeros 64) in
  let encodedR := Point.Bytes (Point.ScalarBaseMult r) in
  let h := hash_to_scalar (encodedR ++ publicKey ++ []) in
  let S := (r + h * privScalar) mod Scalar.L in
  exists (l : loc) (σ' : state) (sig : list byte),
    sign 1%positive 2%positive (Bytes.zeros 64) scenario = Ok (l, σ') /\
    heap σ' !! l = Some sig /\
    length sig = 64%nat /\
    take 32 sig = encodedR /\
    Bytes.update (fun b => Bytes.band b x7f) 63 sig = encodedR ++ Scalar.Bytes S /\
    Bytes.bit 7 (Bytes.get sig 63) = Bytes.bit 7 (Bytes.get publicKey 31).
Proof.
  apply (sign_signature_layout scenario 1%positive 2%positive
           (Bytes.zeros 32) [] (Bytes.zeros 64) (2 ^ 254 mod Scalar.L));
    [reflexivity | reflexivity | reflexivity | reflexivity
    | vm_compute; reflexivity].
Defined.

(** ** The round trip *)

(** When the signer's public key has its sign bit set, the signature
    carries that bit in the top bit of its scalar field, which then
    encodes a value of at least [2^255]: [verify] rejects it, whatever
    key it is given. *)
Lemma sign_bit_set_rejected
    (σ : state) (privateKey message : loc) (key msg random : list byte)
    (privScalar : Scalar.t) :
  heap σ !! privateKey = Some key ->
  heap σ !! message = Some msg ->
  Scalar.SetBytesWithClamping key = Some privScalar ->
  Bytes.bit 7 (Bytes.get (Point.Bytes (Point.ScalarBaseMult privScalar)) 31) = true ->
  exists (l : loc) (σ' : state),
    sign privateKey message random σ = Ok (l, σ') /\
    forall publicKey : list byte,
      verify publicKey message l σ' = Ok (false, σ').
Proof.
  intros Hk Hm Ha Hbit.
  eexists _, _.
  split; [apply (sign_run σ privateKey message key msg random privScalar Hk Hm Ha)|].
  cbv zeta. intros publicKey.
  eapply verify_bad_S; [cbn [heap]; apply lookup_insert_eq|].
  apply SetCanonicalBytes_ge_L.
  rewrite update_63_app by apply length_Point_Bytes.
  rewrite drop_app_length' by (rewrite length_Point_Bytes; reflexivity).
  rewrite BytesFacts.band_x80, Hbit.
  set (sB := Scalar.Bytes _).
  assert (Hl : (31 < length sB)%nat)
    by (unfold sB; rewrite length_Scalar_Bytes; lia).
  assert (Hlk : Bytes.update (fun b => Bytes.bor b x80) 31 sB !! 31%nat
                = Some (Bytes.bor (Bytes.get sB 31) x80)).
  { unfold Bytes.update.
    rewrite list_lookup_alter_eq, (BytesFacts.lookup_get sB 31) by exact Hl.
    reflexivity. }
  pose proof (BytesFacts.le_decode_lookup_le _ _ _ Hlk) as Hle.
  pose proof (BytesFacts.bit7_ge _ (BytesFacts.bit7_bor_x80 (Bytes.get sB 31))) as Hge.
  eapply Z.le_trans; [|exact Hle].
  transitivity (256 ^ Z.of_nat 31 * 128); [vm_compute; discriminate|].
  apply Z.mul_le_mono_nonneg_l; [vm_compute; discriminate | exact Hge].
Qed.

Lemma scenario_publicKey_derived :
  publicKeyOf (Bytes.zeros 32) = Some scenario_publicKey.
Proof. vm_compute. reflexivity. Qed.

(** C1 fails on the scenario of the specification: with the all-zero
    private key, the empty message and all-zero randomness, [verify]
    returns [false] on the signature that [sign] produced, for the public
    key derived from the private key. *)
Theorem roundtrip_fails_on_scenario :
  publicKeyOf (Bytes.zeros 32) = Some scenario_publicKey /\
  exists (l : loc) (σ' : state),
    sign 1%positive 2%positive (Bytes.zeros 64) scenario = Ok (l, σ') /\
    verify scenario_publicKey 2%positive l σ' = Ok (false, σ').
Proof.
  split; [exact scenario_publicKey_derived|].
  pose proof scenario_publicKey_derived as Hpk.
  unfold publicKeyOf in Hpk. rewrite clamp_zero_key in Hpk.
  apply (f_equal (default [])) in Hpk.
  cbv beta iota delta [default from_option id] in Hpk.
  assert (Hbit : Bytes.bit 7 (Bytes.get
            (Point.Bytes (Point.ScalarBaseMult (2 ^ 254 mod Scalar.L))) 31) = true)
    by (rewrite Hpk; vm_compute; reflexivity).
  destruct (sign_bit_set_rejected scenario 1%positive 2%positive
              (Bytes.zeros 32) [] (Bytes.zeros 64) (2 ^ 254 mod Scalar.L)
              eq_refl eq_refl clamp_zero_key Hbit) as (l & σ' & Hrun & Hver).
  exists l, σ'. split; [exact Hrun | apply Hver].
Qed.

(** ** The challenge hash and the curve equation of [verify] *)

(** C3 fails on a key whose sign bit is set.  [verify] reaches the
    challenge hash, and the bytes it hashes are the first 32 signature
    bytes, the public key with bit 7 of byte 31 cleared, and the message:
    not the key bytes as the caller supplied them, which are what [sign]
    hashes. *)
Theorem verify_hashes_masked_key :
  let publicKey := scenario_publicKey in
  let sig := scenario_signature_masked in
  exists (b : bool) (σ' : state),
    verify publicKey 1%positive 2%positive (state_with [] sig) = Ok (b, σ') /\
    hashed σ' = [take 32 sig ++ masked publicKey ++ []] /\
    Bytes.bit 7 (Bytes.get publicKey 31) = true /\
    Bytes.bit 7 (Bytes.get (masked publicKey) 31) = false /\
    take 32 sig ++ masked publicKey ++ [] <> take 32 sig ++ publicKey ++ [].
Proof.
  cbv zeta.
  assert (is_Some (Point.SetBytes (masked scenario_publicKey))) as [A HA]
    by (vm_compute; eexists; reflexivity).
  assert (is_Some (Point.SetBytes (take 32 scenario_signature_masked))) as [R HR]
    by (vm_compute; eexists; reflexivity).
  assert (is_Some (Scalar.SetCanonicalBytes (drop 32 scenario_signature_masked)))
    as [s HS] by (vm_compute; eexists; reflexivity).
  eexists _, _.
  split.
  { apply (verify_run (state_with [] scenario_signature_masked)
             scenario_publicKey 1%positive 2%positive
             scenario_signature_masked [] A R s eq_refl eq_refl HA HR HS). }
  cbv zeta. cbn [hashed state_with app].
  split; [reflexivity|].
  split; [vm_compute; reflexivity|].
  split; [vm_compute; reflexivity|].
  intros E. apply app_inv_head in E.
  apply (f_equal (fun bs : list byte => bs !! 31%nat)) in E.
  vm_compute in E. discriminate E.
Qed.

(** What [verify] computes once the three components decode: it compares
    [h * A + S * B] with [R]. *)
Lemma verify_equation (σ : state) (publicKey : list byte) (message signature : loc)
    (sig msg : list byte) (A R : Point.t) (s : Scalar.t) :
  heap σ !! signature = Some sig ->
  heap σ !! message = Some msg ->
  Point.SetBytes (masked publicKey) = Some A ->
  Point.SetBytes (take 32 sig) = Some R ->
  Scalar.SetCanonicalBytes (drop 32 sig) = Some s ->
  let h := hash_to_scalar (take 32 sig ++ masked publicKey ++ msg) in
  exists σ' : state,
    verify publicKey message signature σ =
      Ok (bool_decide
            (Point.Equal
               (Point.Add (Point.ScalarMult h A) (Point.ScalarBaseMult s)) R = 1),
          σ').
Proof.
  intros Hsig Hmsg HA HR HS. cbv zeta. eexists.
  apply (verify_run σ publicKey message signature sig msg A R s Hsig Hmsg HA HR HS).
Qed.

(** C2 fails on test 1 of RFC 8032.  The public key, [R] and [S] decode,
    and [S * B - h * A] equals [R] for the recomputed challenge [h]; yet
    [verify] returns [false]. *)
Theorem verify_rejects_rfc8032_test1 :
  let publicKey := rfc8032_publicKey in
  let sig := rfc8032_signature in
  match Point.SetBytes (masked publicKey),
        Point.SetBytes (take 32 sig),
        Scalar.SetCanonicalBytes (drop 32 sig) with
  | Some A, Some R, Some s =>
      let h := hash_to_scalar (take 32 sig ++ masked publicKey ++ []) in
      Point.Equal
        (Point.Add (Point.ScalarBaseMult s) (Point.Negate (Point.ScalarMult h A)))
        R = 1 /\
      exists σ' : state,
        verify publicKey 1%positive 2%positive (state_with [] sig) = Ok (false, σ')
  | _, _, _ => False
  end.
Proof.
  cbv zeta.
  destruct (Point.SetBytes (masked rfc8032_publicKey)) as [A|] eqn:HA;
    [|revert HA; vm_compute; discriminate].
  destruct (Point.SetBytes (take 32 rfc8032_signature)) as [R|] eqn:HR;
    [|revert HR; vm_compute; discriminate].
  destruct (Scalar.SetCanonicalBytes (drop 32 rfc8032_signature)) as [s|] eqn:HS;
    [|revert HS; vm_compute; discriminate].
  destruct (verify_equation (state_with [] rfc8032_signature) rfc8032_publicKey
              1%positive 2%positive rfc8032_signature [] A R s
              eq_refl eq_refl HA HR HS) as [σ' Hv].
  cbv zeta in Hv.
  assert (EA : Some A = Point.SetBytes (masked rfc8032_publicKey))
    by (symmetry; exact HA).
  assert (ER : Some R = Point.SetBytes (take 32 rfc8032_signature))
    by (symmetry; exact HR).
  assert (ES : Some s = Scalar.SetCanonicalBytes (drop 32 rfc8032_signature))
    by (symmetry; exact HS).
  vm_compute in EA, ER, ES.
  injection EA as ->. injection ER as ->. injection ES as ->.
  set (h := hash_to_scalar _) in *.
  assert (Eh : h = ltac:(let v := eval vm_compute in h in exact v))
    by (vm_compute; reflexivity).
  clearbody h. subst h.
  set (hA := Point.ScalarMult _ _) in *.
  set (sB := Point.ScalarBaseMult _) in *.
  assert (EhA : hA = ltac:(let v := eval vm_compute in hA in exact v))
    by (vm_compute; reflexivity).
  assert (EsB : sB = ltac:(let v := eval vm_compute in sB in exact v))
    by (vm_compute; reflexivity).
  clearbody hA sB. subst hA sB.
  split; [vm_compute; reflexivity|].
  exists σ'. rewrite Hv. f_equal.
Qed.

(** ** Further properties of [verify] *)

Lemma Ok_inj {A} (a b : A) (σ σ' : state) :
  Ok (a, σ) = Ok (b, σ') -> a = b /\ σ = σ'.
Proof. intros H. injection H as -> ->. split; reflexivity. Qed.

Lemma load_None (l : loc) (σ : state) {B} (k : list byte -> M B) :
  heap σ !! l = None ->
  bind (load l) k σ = Panic "invalid memory address or nil pointer dereference".
Proof. intros H. unfold bind, load. rewrite H. reflexivity. Qed.

(** With a key that decodes, [verify] dereferences the signature
    pointer. *)
Lemma verify_nil_signature_panics
    (σ : state) (publicKey : list byte) (message signature : loc) (A : Point.t) :
  Point.SetBytes (masked publicKey) = Some A ->
  heap σ !! signature = None ->
  verify publicKey message signature σ =
    Panic "invalid memory address or nil pointer dereference".
Proof.
  intros HA Hsig. unfold verify. cbv zeta. fold (masked publicKey).
  rewrite HA. apply load_None, Hsig.
Qed.

Lemma verify_nil_message_panics
    (σ : state) (publicKey : list byte) (message signature : loc)
    (sig : list byte) (A R : Point.t) (s : Scalar.t) :
  heap σ !! signature = Some sig ->
  Point.SetBytes (masked publicKey) = Some A ->
  Point.SetBytes (take 32 sig) = Some R ->
  Scalar.SetCanonicalBytes (drop 32 sig) = Some s ->
  heap σ !! message = None ->
  verify publicKey message signature σ =
    Panic "invalid memory address or nil pointer dereference".
Proof.
  intros Hsig HA HR HS Hmsg. unfold verify. cbv zeta. fold (masked publicKey).
  rewrite HA.
  erewrite bind_Ok by (apply load_Ok, Hsig). rewrite HR.
  erewrite bind_Ok by (apply load_Ok, Hsig). rewrite HS.
  erewrite bind_Ok by (apply load_Ok, Hsig).
  apply load_None, Hmsg.
Qed.

(** X1: [verify] writes nothing: whenever it returns, the heap is the
    heap it started from, so the message, the signature and every other
    buffer are unchanged. *)
Theorem verify_preserves_memory
    (σ σ' : state) (publicKey : list byte) (message signature : loc) (b : bool) :
  verify publicKey message signature σ = Ok (b, σ') ->
  heap σ' = heap σ.
Proof.
  intros H.
  destruct (Point.SetBytes (masked publicKey)) as [A|] eqn:HA.
  2:{ rewrite (verify_bad_key σ publicKey message signature HA) in H.
      apply Ok_inj in H as [_ <-]. reflexivity. }
  destruct (heap σ !! signature) as [sig|] eqn:Hsig.
  2:{ rewrite (verify_nil_signature_panics σ publicKey message signature A HA Hsig) in H.
      discriminate H. }
  destruct (Point.SetBytes (take 32 sig)) as [R|] eqn:HR.
  2:{ rewrite (verify_bad_R σ publicKey message signature sig Hsig HR) in H.
      apply Ok_inj in H as [_ <-]. reflexivity. }
  destruct (Scalar.SetCanonicalBytes (drop 32 sig)) as [s|] eqn:HS.
  2:{ rewrite (verify_bad_S σ publicKey message signature sig Hsig HS) in H.
      apply Ok_inj in H as [_ <-]. reflexivity. }
  destruct (heap σ !! message) as [msg|] eqn:Hmsg.
  2:{ rewrite (verify_nil_message_panics σ publicKey message signature
                 sig A R s Hsig HA HR HS Hmsg) in H.
      discriminate H. }
  rewrite (verify_run σ publicKey message signature sig msg A R s
             Hsig Hmsg HA HR HS) in H.
  cbv zeta in H. apply Ok_inj in H as [_ <-]. reflexivity.
Qed.

Lemma verify_preserves_memory_witness :
  heap (state_with [] (replicate 64 xff)) = heap (state_with [] (replicate 64 xff)).
Proof.
  apply (verify_preserves_memory _ _ identity_bytes 1%positive 2%positive false).
  vm_compute. reflexivity.
Defined.

(** X2: the signature pointer is dereferenced only after the public key
    has decoded.  With a nil signature pointer, [verify] returns [false]
    when the key (sign bit stripped) does not decode, and panics when it
    does. *)
Theorem verify_nil_signature
    (σ : state) (publicKey : list byte) (message signature : loc) :
  heap σ !! signature = None ->
  (Point.SetBytes (masked publicKey) = None ->
   verify publicKey message signature σ = Ok (false, σ)) /\
  (is_Some (Point.SetBytes (masked publicKey)) ->
   exists msg : string, verify publicKey message signature σ = Panic msg).
Proof.
  intros Hsig. split.
  - apply verify_bad_key.
  - intros [A HA]. eexists. eapply verify_nil_signature_panics; eassumption.
Qed.

Lemma verify_nil_signature_witness :
  (Point.SetBytes (masked identity_bytes) = None ->
   verify identity_bytes 1%positive 3%positive (state_with [] []) =
     Ok (false, state_with [] [])) /\
  (is_Some (Point.SetBytes (masked identity_bytes)) ->
   exists msg : string,
     verify identity_bytes 1%positive 3%positive (state_with [] []) = Panic msg).
Proof.
  apply (verify_nil_signature (state_with [] []) identity_bytes 1%positive 3%positive).
  reflexivity.
Defined.

(** X3: the acceptance condition of [verify].  When the public key (sign
    bit stripped), [R] and [S] decode, [verify] returns [true] exactly
    when [h * A + S * B] equals [R], where [h] is the SHA-512 digest of
    the first 32 signature bytes, the stripped key and the message,
    reduced modulo [L]. *)
Theorem verify_accepts_iff
    (σ : state) (publicKey : list byte) (message signature : loc)
    (sig msg : list byte) (A R : Point.t) (s : Scalar.t) :
  heap σ !! signature = Some sig ->
  heap σ !! message = Some msg ->
  Point.SetBytes (masked publicKey) = Some A ->
  Point.SetBytes (take 32 sig) = Some R ->
  Scalar.SetCanonicalBytes (drop 32 sig) = Some s ->
  let h :=
    Bytes.le_decode (sha512.Sum512 (take 32 sig ++ masked publicKey ++ msg))
      mod Scalar.L in
  exists (b : bool) (σ' : state),
    verify publicKey message signature σ = Ok (b, σ') /\
    (b = true <->
     Point.Equal (Point.Add (Point.ScalarMult h A) (Point.ScalarBaseMult s)) R = 1).
Proof.
  intros Hsig Hmsg HA HR HS. cbv zeta. eexists _, _.
  split; [apply (verify_run σ publicKey message signature sig msg A R s
                   Hsig Hmsg HA HR HS)|].
  cbv zeta. apply bool_decide_eq_true.
Qed.

Lemma verify_accepts_iff_witness :
  let sig := identity_bytes ++ Bytes.zeros 32 in
  let h :=
    Bytes.le_decode (sha512.Sum512 (take 32 sig ++ masked identity_bytes ++ []))
      mod Scalar.L in
  exists (b : bool) (σ' : state),
    verify identity_bytes 1%positive 2%positive (state_with [] sig) = Ok (b, σ') /\
    (b = true <->
     Point.Equal
       (Point.Add (Point.ScalarMult h Point.identity) (Point.ScalarBaseMult 0))
       Point.identity = 1).
Proof.
  apply (verify_accepts_iff
           (state_with [] (identity_bytes ++ Bytes.zeros 32)) identity_bytes
           1%positive 2%positive (identity_bytes ++ Bytes.zeros 32) []
           Point.identity Point.identity 0);
    [reflexivity | reflexivity
    | vm_compute; reflexivity | vm_compute; reflexivity | vm_compute; reflexivity].
Defined.

(** X4: a signature with bit 7 of its last byte set is rejected, whatever
    the key and the message: its scalar field encodes a value of at
    least [2^255]. *)
Theorem verify_rejects_top_bit
    (σ : state) (publicKey : list byte) (message signature : loc)
    (sig : list byte) :
  heap σ !! signature = Some sig ->
  length sig = 64%nat ->
  Bytes.bit 7 (Bytes.get sig 63) = true ->
  verify publicKey message signature σ = Ok (false, σ).
Proof.
  intros Hsig Hlen Hbit.
  eapply verify_bad_S; [exact Hsig|].
  apply SetCanonicalBytes_ge_L.
  assert (Hlk : drop 32 sig !! 31%nat = Some (Bytes.get sig 63)).
  { rewrite lookup_drop. apply BytesFacts.lookup_get. lia. }
  pose proof (BytesFacts.le_decode_lookup_le _ _ _ Hlk) as Hle.
  pose proof (BytesFacts.bit7_ge _ Hbit) as Hge.
  eapply Z.le_trans; [|exact Hle].
  transitivity (256 ^ Z.of_nat 31 * 128); [vm_compute; discriminate|].
  apply Z.mul_le_mono_nonneg_l; [vm_compute; discriminate | exact Hge].
Qed.

Lemma verify_rejects_top_bit_witness :
  verify identity_bytes 1%positive 2%positive
         (state_with [] (Bytes.zeros 63 ++ [x80])) =
  Ok (false, state_with [] (Bytes.zeros 63 ++ [x80])).
Proof.
  apply (verify_rejects_top_bit _ _ _ _ (Bytes.zeros 63 ++ [x80]));
    reflexivity.
Defined.

(** ** Further properties of [sign], and of [verify] after [sign] *)

Lemma band_x7f_clear (b : byte) : Bytes.bit 7 b = false -> Bytes.band b x7f = b.
Proof. destruct b; first [reflexivity | discriminate]. Qed.

Lemma band_x7f_bit (b : byte) : Bytes.bit 7 (Bytes.band b x7f) = false.
Proof. destruct b; reflexivity. Qed.

Lemma masked_clear (publicKey : list byte) :
  Bytes.bit 7 (Bytes.get publicKey 31) = false -> masked publicKey = publicKey.
Proof. intros H. apply update_fixed, band_x7f_clear, H. Qed.

Lemma masked_set (publicKey : list byte) :
  length publicKey = 32%nat ->
  Bytes.bit 7 (Bytes.get publicKey 31) = true -> masked publicKey <> publicKey.
Proof.
  intros Hlen Hbit E.
  assert (Hm : Bytes.bit 7 (Bytes.get (masked publicKey) 31) = false).
  { unfold masked. rewrite update_get by lia. apply band_x7f_bit. }
  rewrite E, Hbit in Hm. discriminate Hm.
Qed.

Lemma le_decode_le_encode (n : nat) (z : Z) :
  0 <= z < 256 ^ Z.of_nat n -> Bytes.le_decode (Bytes.le_encode n z) = z.
Proof.
  revert z. induction n as [|n IH]; intros z Hz.
  - simpl in *. lia.
  - change (Bytes.le_decode (Bytes.le_encode (S n) z))
      with (Bytes.to_Z (Bytes.of_Z z)
            + 256 * Bytes.le_decode (Bytes.le_encode n (z / 256))).
    rewrite Nat2Z.inj_succ, Z.pow_succ_r in Hz by lia.
    rewrite BytesFacts.to_of_Z, IH.
    + pose proof (Z.div_mod z 256). lia.
    + split; [apply Z.div_pos; lia|].
      apply Z.div_lt_upper_bound; lia.
Qed.

(** A reduced scalar decodes from its own encoding. *)
Lemma SetCanonicalBytes_Bytes (s : Scalar.t) :
  0 <= s < Scalar.L -> Scalar.SetCanonicalBytes (Scalar.Bytes s) = Some s.
Proof.
  intros [H0 H1]. unfold Scalar.SetCanonicalBytes.
  rewrite decide_True by apply length_Scalar_Bytes.
  unfold Scalar.Bytes. rewrite le_decode_le_encode.
  - destruct (Z.ltb_spec s Scalar.L); [reflexivity|lia].
  - split; [exact H0|]. eapply Z.lt_trans; [exact H1|reflexivity].
Qed.

(** X5: when the public key derived from the private key has its sign bit
    set, the signature that [sign] returns is rejected by [verify] for
    every public key, the signer's own included: [sign] has set bit 7 of
    byte 63, and [verify] decodes the scalar field without masking it. *)
Theorem sign_output_rejected_when_sign_bit_set
    (σ : state) (privateKey message : loc) (key msg random : list byte)
    (privScalar : Scalar.t) :
  heap σ !! privateKey = Some key ->
  heap σ !! message = Some msg ->
  Scalar.SetBytesWithClamping key = Some privScalar ->
  Bytes.bit 7 (Bytes.get (Point.Bytes (Point.ScalarBaseMult privScalar)) 31) = true ->
  exists (l : loc) (σ' : state),
    sign privateKey message random σ = Ok (l, σ') /\
    forall publicKey : list byte,
      verify publicKey message l σ' = Ok (false, σ').
Proof. apply sign_bit_set_rejected. Qed.

Lemma sign_output_rejected_when_sign_bit_set_witness :
  exists (l : loc) (σ' : state),
    sign 1%positive 2%positive (Bytes.zeros 64)
         (caller_state sign_bit_set_key [] (Bytes.zeros 64)) = Ok (l, σ') /\
    forall publicKey : list byte,
      verify publicKey 2%positive l σ' = Ok (false, σ').
Proof.
  apply (sign_output_rejected_when_sign_bit_set
           (caller_state sign_bit_set_key [] (Bytes.zeros 64))
           1%positive 2%positive sign_bit_set_key [] (Bytes.zeros 64) 7);
    [reflexivity | reflexivity | vm_compute; reflexivity | vm_compute; reflexivity].
Defined.

(** X6: [sign] computes exactly two digests.  The second, the challenge,
    is taken over the 32 bytes of encoded [R] (the first half of the
    signature), the 32 bytes of the derived public key with its sign bit,
    and the message. *)
Theorem sign_challenge_input
    (σ : state) (privateKey message : loc) (key msg random : list byte)
    (privScalar : Scalar.t) :
  heap σ !! privateKey = Some key ->
  heap σ !! message = Some msg ->
  Scalar.SetBytesWithClamping key = Some privScalar ->
  let publicKey := Point.Bytes (Point.ScalarBaseMult privScalar) in
  exists (l : loc) (σ' : state) (sig : list byte),
    sign privateKey message random σ = Ok (l, σ') /\
    heap σ' !! l = Some sig /\
    hashed σ' =
      hashed σ ++ [diversifier ++ key ++ msg ++ random;
                   take 32 sig ++ publicKey ++ msg].
Proof.
  intros Hk Hm Ha. cbv zeta. eexists _, _, _.
  split; [apply (sign_run σ privateKey message key msg random privScalar Hk Hm Ha)|].
  cbv zeta. cbn [heap hashed].
  split; [apply lookup_insert_eq|].
  rewrite update_63_app by apply length_Point_Bytes.
  rewrite take_app_length' by (rewrite length_Point_Bytes; reflexivity).
  reflexivity.
Qed.

Lemma sign_challenge_input_witness :
  let publicKey := Point.Bytes (Point.ScalarBaseMult (2 ^ 254 mod Scalar.L)) in
  exists (l : loc) (σ' : state) (sig : list byte),
    sign 1%positive 2%positive (Bytes.zeros 64) scenario = Ok (l, σ') /\
    heap σ' !! l = Some sig /\
    hashed σ' =
      hashed scenario ++ [diversifier ++ Bytes.zeros 32 ++ [] ++ Bytes.zeros 64;
                          take 32 sig ++ publicKey ++ []].
Proof.
  apply (sign_challenge_input scenario 1%positive 2%positive
           (Bytes.zeros 32) [] (Bytes.zeros 64) (2 ^ 254 mod Scalar.L));
    [reflexivity | reflexivity | vm_compute; reflexivity].
Defined.

(** X7: the challenge input of [verify].  When the three components
    decode, [verify] computes one digest, over the first 32 signature
    bytes, the key with bit 7 of byte 31 cleared, and the message.  That
    input is the first 32 signature bytes followed by the caller's key
    bytes and the message exactly when the caller's key has that bit
    clear. *)
Theorem verify_challenge_input
    (σ : state) (publicKey : list byte) (message signature : loc)
    (sig msg : list byte) (A R : Point.t) (s : Scalar.t) :
  heap σ !! signature = Some sig ->
  heap σ !! message = Some msg ->
  length publicKey = 32%nat ->
  Point.SetBytes (masked publicKey) = Some A ->
  Point.SetBytes (take 32 sig) = Some R ->
  Scalar.SetCanonicalBytes (drop 32 sig) = Some s ->
  exists (b : bool) (σ' : state) (input : list byte),
    verify publicKey message signature σ = Ok (b, σ') /\
    hashed σ' = hashed σ ++ [input] /\
    input = take 32 sig ++ masked publicKey ++ msg /\
    (input = take 32 sig ++ publicKey ++ msg <->
     Bytes.bit 7 (Bytes.get publicKey 31) = false).
Proof.
  intros Hsig Hmsg Hlen HA HR HS. eexists _, _, _.
  split; [apply (verify_run σ publicKey message signature sig msg A R s
                   Hsig Hmsg HA HR HS)|].
  cbv zeta. cbn [hashed].
  split; [reflexivity|]. split; [reflexivity|].
  split.
  - intros E. apply app_inv_head in E. apply app_inv_tail in E.
    destruct (Bytes.bit 7 (Bytes.get publicKey 31)) eqn:Hbit; [|reflexivity].
    exfalso. exact (masked_set publicKey Hlen Hbit E).
  - intros Hbit. rewrite (masked_clear publicKey Hbit). reflexivity.
Qed.

Lemma verify_challenge_input_witness :
  let publicKey := flip_sign_bit identity_bytes in
  let sig := identity_bytes ++ Bytes.zeros 32 in
  exists (b : bool) (σ' : state) (input : list byte),
    verify publicKey 1%positive 2%positive (state_with [] sig) = Ok (b, σ') /\
    hashed σ' = hashed (state_with [] sig) ++ [input] /\
    input = take 32 sig ++ masked publicKey ++ [] /\
    (input = take 32 sig ++ publicKey ++ [] <->
     Bytes.bit 7 (Bytes.get publicKey 31) = false).
Proof.
  apply (verify_challenge_input
           (state_with [] (identity_bytes ++ Bytes.zeros 32))
           (flip_sign_bit identity_bytes) 1%positive 2%positive
           (identity_bytes ++ Bytes.zeros 32) []
           Point.identity Point.identity 0);
    [reflexivity | reflexivity | reflexivity
    | vm_compute; reflexivity | vm_compute; reflexivity | vm_compute; reflexivity].
Defined.

(** X8: [sign] allocates one array and touches nothing else.  The pointer
    it returns was not allocated before the call, so the signature
    aliases none of the caller's buffers; it holds 64 bytes; and every
    other location holds after the call what it held before. *)
Theorem sign_returns_fresh_array
    (σ : state) (privateKey message : loc) (key msg random : list byte) :
  heap σ !! privateKey = Some key ->
  heap σ !! message = Some msg ->
  length key = 32%nat ->
  exists (l : loc) (σ' : state) (sig : list byte),
    sign privateKey message random σ = Ok (l, σ') /\
    heap σ !! l = None /\
    heap σ' !! l = Some sig /\
    length sig = 64%nat /\
    forall l0 : loc, l0 <> l -> heap σ' !! l0 = heap σ !! l0.
Proof.
  intros Hk Hm Hlen.
  destruct (SetBytesWithClamping_is_Some key Hlen) as [a Ha].
  eexists _, _, _.
  split; [apply (sign_run σ privateKey message key msg random a Hk Hm Ha)|].
  cbv zeta. cbn [heap].
  split; [apply not_elem_of_dom, is_fresh|].
  split; [apply lookup_insert_eq|].
  split.
  - rewrite BytesFacts.length_update, length_app,
      length_Point_Bytes, length_Scalar_Bytes. reflexivity.
  - intros l0 Hl0. apply lookup_insert_ne. congruence.
Qed.

Lemma sign_returns_fresh_array_witness :
  exists (l : loc) (σ' : state) (sig : list byte),
    sign 1%positive 2%positive (Bytes.zeros 64) scenario = Ok (l, σ') /\
    heap scenario !! l = None /\
    heap σ' !! l = Some sig /\
    length sig = 64%nat /\
    forall l0 : loc, l0 <> l -> heap σ' !! l0 = heap scenario !! l0.
Proof.
  apply (sign_returns_fresh_array scenario 1%positive 2%positive
           (Bytes.zeros 32) [] (Bytes.zeros 64));
    reflexivity.
Defined.

(** X9: [verify] after [sign], for a key whose public key has its sign
    bit clear.  If the derived public key and the encoded [R] decode (to
    [A] and [R]), then [verify], given that public key, reaches the curve
    check with the signer's own challenge [h] and scalar
    [S = (r + h * privScalar) mod L], and returns [true] exactly when
    [h * A + S * B] equals [R]. *)
Theorem verify_after_sign_sign_bit_clear
    (σ : state) (privateKey message : loc) (key msg random : list byte)
    (privScalar : Scalar.t) :
  heap σ !! privateKey = Some key ->
  heap σ !! message = Some msg ->
  Scalar.SetBytesWithClamping key = Some privScalar ->
  let publicKey := Point.Bytes (Point.ScalarBaseMult privScalar) in
  let r := hash_to_scalar (diversifier ++ key ++ msg ++ random) in
  let encodedR := Point.Bytes (Point.ScalarBaseMult r) in
  let h := hash_to_scalar (encodedR ++ publicKey ++ msg) in
  let S := (r + h * privScalar) mod Scalar.L in
  Bytes.bit 7 (Bytes.get publicKey 31) = false ->
  is_Some (Point.SetBytes publicKey) ->
  is_Some (Point.SetBytes encodedR) ->
  exists (A R : Point.t) (l : loc) (σ1 σ2 : state) (b : bool),
    Point.SetBytes publicKey = Some A /\
    Point.SetBytes encodedR = Some R /\
    sign privateKey message random σ = Ok (l, σ1) /\
    verify publicKey message l σ1 = Ok (b, σ2) /\
    (b = true <->
     Point.Equal (Point.Add (Point.ScalarMult h A) (Point.ScalarBaseMult S)) R = 1).
Proof.
  intros Hk Hm Ha. cbv zeta.
  set (publicKey := Point.Bytes (Point.ScalarBaseMult privScalar)).
  set (r := hash_to_scalar (diversifier ++ key ++ msg ++ random)).
  set (encodedR := Point.Bytes (Point.ScalarBaseMult r)).
  set (h := hash_to_scalar (encodedR ++ publicKey ++ msg)).
  set (S := (r + h * privScalar) mod Scalar.L).
  intros Hbit [A HA] [R HR].
  assert (HS : Scalar.MultiplyAdd h privScalar r = S).
  { unfold Scalar.MultiplyAdd, S. f_equal. ring. }
  assert (HlR : length encodedR = 32%nat) by apply length_Point_Bytes.
  pose proof (sign_run σ privateKey message key msg random privScalar Hk Hm Ha)
    as Hrun.
  cbv zeta in Hrun. fold publicKey r encodedR h in Hrun.
  rewrite HS, BytesFacts.band_x80, Hbit in Hrun.
  rewrite (update_fixed _ _ 63) in Hrun by apply BytesFacts.bor_x00.
  set (l := fresh (dom (heap σ))) in Hrun.
  set (σ1 := State _ _) in Hrun.
  assert (Hsig : heap σ1 !! l = Some (encodedR ++ Scalar.Bytes S))
    by apply lookup_insert_eq.
  assert (Hmsg : heap σ1 !! message = Some msg).
  { unfold σ1. cbn [heap]. rewrite lookup_insert_ne; [exact Hm|].
    eapply fresh_lookup_ne, Hm. }
  assert (HA' : Point.SetBytes (masked publicKey) = Some A)
    by (rewrite (masked_clear publicKey Hbit); exact HA).
  assert (HR' : Point.SetBytes (take 32 (encodedR ++ Scalar.Bytes S)) = Some R)
    by (rewrite take_app_length' by (symmetry; exact HlR); exact HR).
  assert (HS' : Scalar.SetCanonicalBytes (drop 32 (encodedR ++ Scalar.Bytes S))
                = Some S).
  { rewrite drop_app_length' by (symmetry; exact HlR).
    apply SetCanonicalBytes_Bytes, Z.mod_pos_bound. reflexivity. }
  pose proof (verify_run σ1 publicKey message l _ msg A R S
                Hsig Hmsg HA' HR' HS') as Hver.
  cbv zeta in Hver.
  rewrite take_app_length', (masked_clear publicKey Hbit) in Hver
    by (symmetry; exact HlR).
  fold h in Hver.
  exists A, R, l, σ1. eexists _, _.
  split; [exact HA|]. split; [exact HR|]. split; [exact Hrun|].
  split; [exact Hver|]. apply bool_decide_eq_true.
Qed.

Lemma verify_after_sign_sign_bit_clear_witness :
  let key := sign_bit_clear_key in
  let σ := caller_state key [] (Bytes.zeros 64) in
  let publicKey := Point.Bytes (Point.ScalarBaseMult 4) in
  let r := hash_to_scalar (diversifier ++ key ++ [] ++ Bytes.zeros 64) in
  let encodedR := Point.Bytes (Point.ScalarBaseMult r) in
  let h := hash_to_scalar (encodedR ++ publicKey ++ []) in
  let S := (r + h * 4) mod Scalar.L in
  exists (A R : Point.t) (l : loc) (σ1 σ2 : state) (b : bool),
    Point.SetBytes publicKey = Some A /\
    Point.SetBytes encodedR = Some R /\
    sign 1%positive 2%positive (Bytes.zeros 64) σ = Ok (l, σ1) /\
    verify publicKey 2%positive l σ1 = Ok (b, σ2) /\
    (b = true <->
     Point.Equal (Point.Add (Point.ScalarMult h A) (Point.ScalarBaseMult S)) R = 1).
Proof.
  apply (verify_after_sign_sign_bit_clear
           (caller_state sign_bit_clear_key [] (Bytes.zeros 64))
           1%positive 2%positive sign_bit_clear_key [] (Bytes.zeros 64) 4);
    [reflexivity | reflexivity | vm_compute; reflexivity | vm_compute; reflexivity
    | vm_compute; eexists; reflexivity | vm_compute; eexists; reflexivity].
Defined.

(** ** The neutral element as a public key *)

Lemma reduce_range (x : Z) : 0 <= x < 2 ^ 510 -> 0 <= field.reduce x < field.p.
Proof.
  intros H. rewrite fieldFacts.reduce_spec by exact H.
  apply Z.mod_pos_bound. reflexivity.
Qed.

Lemma product_range (a b : Z) :
  0 <= a < field.p -> 0 <= b < field.p -> 0 <= a * b < 2 ^ 510.
Proof.
  intros [Ha0 Ha1] [Hb0 Hb1]. split; [apply Z.mul_nonneg_nonneg; assumption|].
  apply Z.le_lt_trans with (field.p * field.p); [|reflexivity].
  apply Z.mul_le_mono_nonneg; lia.
Qed.

Lemma sum_range (a b : Z) :
  0 <= a < field.p -> 0 <= b < field.p -> 0 <= a + b < 2 ^ 510.
Proof.
  intros [Ha0 Ha1] [Hb0 Hb1]. split; [lia|].
  apply Z.lt_trans with (field.p + field.p); [lia|reflexivity].
Qed.

Lemma Multiply_range (a b : Z) :
  0 <= a < field.p -> 0 <= b < field.p -> 0 <= field.Multiply a b < field.p.
Proof. intros Ha Hb. apply reduce_range, product_range; assumption. Qed.

Lemma Add_range (a b : Z) :
  0 <= a < field.p -> 0 <= b < field.p -> 0 <= field.Add a b < field.p.
Proof. intros Ha Hb. apply reduce_range, sum_range; assumption. Qed.

Lemma Multiply_0_l (a : Z) : field.Multiply 0 a = 0.
Proof. unfold field.Multiply. rewrite Z.mul_0_l. reflexivity. Qed.

Lemma Add_0_r (a : Z) : 0 <= a < field.p -> field.Add a 0 = a.
Proof.
  intros Ha. unfold field.Add. rewrite Z.add_0_r.
  rewrite fieldFacts.reduce_spec.
  - apply Z.mod_small, Ha.
  - split; [lia|]. eapply Z.lt_trans; [apply Ha|reflexivity].
Qed.

Lemma Subtract_0_r (a : Z) : 0 <= a < field.p -> field.Subtract a 0 = a.
Proof.
  intros Ha. unfold field.Subtract. rewrite Z.sub_0_r.
  rewrite fieldFacts.reduce_spec.
  - rewrite <- (Z.mul_1_l field.p) at 1. rewrite Z.mod_add by (unfold field.p; lia).
    apply Z.mod_small, Ha.
  - split; [unfold field.p in *; lia|].
    apply Z.lt_trans with (field.p + field.p); [lia|reflexivity].
Qed.

Lemma Subtract_diag (a : Z) : field.Subtract a a = 0.
Proof.
  unfold field.Subtract. replace (a + field.p - a) with field.p by lia.
  reflexivity.
Qed.

Lemma Multiply_double (a b : Z) :
  0 <= a < field.p -> 0 <= b < field.p ->
  field.Multiply (field.Add a a) b =
  field.Add (field.Multiply a b) (field.Multiply a b).
Proof.
  intros Ha Hb. unfold field.Multiply, field.Add.
  pose proof (reduce_range _ (sum_range a a Ha Ha)) as Hs.
  pose proof (reduce_range _ (product_range a b Ha Hb)) as Hm.
  rewrite (fieldFacts.reduce_spec (field.reduce (a + a) * b))
    by (apply product_range; assumption).
  rewrite (fieldFacts.reduce_spec (field.reduce (a * b) + field.reduce (a * b)))
    by (apply sum_range; assumption).
  rewrite (fieldFacts.reduce_spec (a + a)) by (apply sum_range; assumption).
  rewrite (fieldFacts.reduce_spec (a * b)) by (apply product_range; assumption).
  rewrite Z.mul_mod_idemp_l by (unfold field.p; lia).
  rewrite <- Z.add_mod by (unfold field.p; lia).
  f_equal. ring.
Qed.

Lemma Add_neutral (P Q : Point.t) :
  neutral P -> neutral Q -> neutral (Point.Add P Q).
Proof.
  destruct P as [x y z t], Q as [x' y' z' t'].
  unfold neutral. cbn [Point.X Point.Y Point.Zc Point.T].
  intros (-> & -> & <- & Hy) (-> & -> & <- & Hy').
  unfold Point.Add. cbn [Point.X Point.Y Point.Zc Point.T].
  rewrite !Subtract_0_r, !Add_0_r by assumption.
  rewrite Subtract_diag, !Multiply_0_l.
  pose proof (Multiply_range y y' Hy Hy') as Hm.
  pose proof (Add_range _ _ Hm Hm) as Hd.
  rewrite (Multiply_double y y' Hy Hy').
  rewrite Subtract_0_r, Add_0_r by exact Hd.
  split; [reflexivity|]. split; [reflexivity|]. split; [reflexivity|].
  apply Multiply_range; exact Hd.
Qed.

Lemma identity_neutral : neutral Point.identity.
Proof. unfold neutral, Point.identity. cbn. unfold field.p. lia. Qed.

Lemma ScalarMult_neutral (h : Scalar.t) (P : Point.t) :
  neutral P -> neutral (Point.ScalarMult h P).
Proof.
  intros HP. destruct h as [|k|k]; try exact identity_neutral.
  cbn [Point.ScalarMult].
  induction k as [k IH|k IH|]; cbn [Point.mult_pos].
  - apply Add_neutral; [apply Add_neutral; exact IH | exact HP].
  - apply Add_neutral; exact IH.
  - exact HP.
Qed.

Lemma Equal_neutral (P : Point.t) : neutral P -> Point.Equal P Point.identity = 1.
Proof.
  destruct P as [x y z t]. unfold neutral. cbn [Point.X Point.Y Point.Zc Point.T].
  intros (-> & -> & <- & Hy).
  unfold Point.Equal, Point.identity. cbn [Point.X Point.Y Point.Zc Point.T].
  rewrite !Multiply_0_l. unfold field.Multiply.
  rewrite Z.mul_1_r, Z.mul_1_l, !Z.eqb_refl. reflexivity.
Qed.

(** X10: [verify] has no check against keys of small order.  Under the
    public key that encodes the neutral element, the signature made of
    the encoding of the neutral element followed by 32 zero bytes is
    accepted for every message. *)
Theorem verify_accepts_neutral_key_forgery
    (σ : state) (message signature : loc) (msg : list byte) :
  heap σ !! signature = Some (identity_bytes ++ Bytes.zeros 32) ->
  heap σ !! message = Some msg ->
  exists σ' : state,
    verify identity_bytes message signature σ = Ok (true, σ').
Proof.
  intros Hsig Hmsg.
  assert (HA : Point.SetBytes (masked identity_bytes) = Some Point.identity)
    by (vm_compute; reflexivity).
  assert (HR : Point.SetBytes (take 32 (identity_bytes ++ Bytes.zeros 32))
               = Some Point.identity) by (vm_compute; reflexivity).
  assert (HS : Scalar.SetCanonicalBytes (drop 32 (identity_bytes ++ Bytes.zeros 32))
               = Some 0) by (vm_compute; reflexivity).
  eexists.
  rewrite (verify_run σ identity_bytes message signature _ msg
             Point.identity Point.identity 0 Hsig Hmsg HA HR HS).
  cbv zeta. f_equal. f_equal.
  apply bool_decide_eq_true. unfold Point.VarTimeDoubleScalarBaseMult.
  apply Equal_neutral, Add_neutral.
  - apply ScalarMult_neutral, identity_neutral.
  - exact identity_neutral.
Qed.

Lemma verify_accepts_neutral_key_forgery_witness :
  exists σ' : state,
    verify identity_bytes 1%positive 2%positive
           (state_with ["h"; "i"]%byte (identity_bytes ++ Bytes.zeros 32)) =
    Ok (true, σ').
Proof.
  apply (verify_accepts_neutral_key_forgery _ _ _ ["h"; "i"]%byte); reflexivity.
Defined.
